(** * CITES participant-list extraction: layout reconstruction engine

    A shallow embedding of [python_code/extract_pdf_data.py] and of the two
    stand-alone scripts it supersedes, [single_column_bold_extract.py] and
    [two_columns_file_extract.py].

    Conventions of the embedding.
    - A Python [str] is a [string]; a character is an [ascii] read as the
      code point U+0000..U+00FF, and [str.isspace], [str.isupper] are the
      Python predicates on that range.
    - Page coordinates (Python floats) are exact rationals [Q]; comparisons
      are the boolean comparisons of [Q].
    - A word or character dictionary produced by the PDF library is a record
      with the keys the code reads.
    - A loop over a list is a structural recursion or a fold over it, the loop
      variables being the accumulator. *)

From Stdlib Require Import List String Ascii Bool Arith ZArith QArith Qabs Lia.
From Stdlib Require Import Sorting.Permutation Sorting.Sorted.
From Stdlib Require Import Lqa.
Import ListNotations.

Close Scope Q_scope.
Open Scope nat_scope.
Open Scope string_scope.

(* ================================================================== *)
(** * Python string primitives *)
(* ================================================================== *)

Module PyStr.

(** [c.isspace()] on the code points below 256. *)
Definition isspace (c : ascii) : bool :=
  let n := nat_of_ascii c in
  (((9 <=? n) && (n <=? 13)) || ((28 <=? n) && (n <=? 32))
   || (n =? 133) || (n =? 160))%nat.

(** [c.isupper()] on the code points below 256: A-Z, and the Latin-1
    capitals U+00C0..U+00DE but for the multiplication sign U+00D7. *)
Definition isupper (c : ascii) : bool :=
  let n := nat_of_ascii c in
  (((65 <=? n) && (n <=? 90))
   || ((192 <=? n) && (n <=? 222) && negb (n =? 215)))%nat.

(** [s.lstrip()] *)
Fixpoint lstrip (s : string) : string :=
  match s with
  | EmptyString => EmptyString
  | String c r => if isspace c then lstrip r else s
  end.

(** [s.rstrip()] *)
Fixpoint rstrip (s : string) : string :=
  match s with
  | EmptyString => EmptyString
  | String c r =>
      match rstrip r with
      | EmptyString => if isspace c then EmptyString else String c EmptyString
      | r' => String c r'
      end
  end.

(** [s.strip()] *)
Definition strip (s : string) : string := rstrip (lstrip s).

(** [s.split(sep, 1)[0]] for a one-character separator: the text before the
    first occurrence of [sep], the whole text when there is none. *)
Fixpoint split1_head (sep : ascii) (s : string) : string :=
  match s with
  | EmptyString => EmptyString
  | String c r => if Ascii.eqb c sep then EmptyString
                  else String c (split1_head sep r)
  end.

(** [sep.join(parts)] *)
Definition join (sep : string) (parts : list string) : string :=
  String.concat sep parts.

(** [pat in s] *)
Definition contains (pat s : string) : bool :=
  match String.index 0 pat s with Some _ => true | None => false end.

(** Truth value of a string: [bool(s)]. *)
Definition truthy (s : string) : bool :=
  match s with EmptyString => false | _ => true end.

(** [all(p(c) for c in s)] *)
Fixpoint all_chars (p : ascii -> bool) (s : string) : bool :=
  match s with
  | EmptyString => true
  | String c r => p c && all_chars p r
  end.

(** [s[n:]] *)
Fixpoint drop (n : nat) (s : string) : string :=
  match n, s with
  | O, _ => s
  | S n', String _ r => drop n' r
  | S _, EmptyString => EmptyString
  end.

End PyStr.

(* ================================================================== *)
(** * The fragment of Python's [re] that [title_match_pattern] uses *)
(* ================================================================== *)

Module Re.

(** Patterns: a literal text, [\s*], concatenation, ordered alternation
    [r1|r2] and the greedy optional group [(?:r)?]. *)
Inductive re : Type :=
| Lit (l : string)
| WsStar
| Seq (r1 r2 : re)
| Alt (r1 r2 : re)
| Opt (r : re).

(** [lit_at l s]: the rest of [s] after the literal [l], if [s] starts
    with it. *)
Fixpoint lit_at (l s : string) : option string :=
  match l, s with
  | EmptyString, _ => Some s
  | String a l', String b s' => if Ascii.eqb a b then lit_at l' s' else None
  | String _ _, EmptyString => None
  end.

(** Greedy [\s*] with backtracking: the longest run of white space is
    tried first, then shorter ones, until the continuation [k] succeeds. *)
Fixpoint ws_star {A} (s : string) (k : string -> option A) : option A :=
  match s with
  | String c r =>
      if PyStr.isspace c then
        match ws_star r k with
        | Some x => Some x
        | None => k s
        end
      else k s
  | EmptyString => k s
  end.

(** The backtracking matcher, in continuation-passing style: [run r s k]
    matches [r] at the start of [s] and hands the rest to [k]; alternatives
    are tried from left to right and the first complete success wins, as in
    Python's engine. *)
Fixpoint run {A} (r : re) (s : string) (k : string -> option A) : option A :=
  match r with
  | Lit l => match lit_at l s with Some s' => k s' | None => None end
  | WsStar => ws_star s k
  | Seq r1 r2 => run r1 s (fun s' => run r2 s' k)
  | Alt r1 r2 =>
      match run r1 s k with
      | Some x => Some x
      | None => run r2 s k
      end
  | Opt r1 =>
      match run r1 s k with
      | Some x => Some x
      | None => k s
      end
  end.

(** [pattern.match(s)]: the length of [m.group()], or [None]. *)
Definition match_ (r : re) (s : string) : option nat :=
  run r s (fun rest => Some (String.length s - String.length rest)).

(** The language of a pattern: [matches r w] when [r] can match exactly the
    text [w]. *)
Inductive matches : re -> string -> Prop :=
| m_lit l : matches (Lit l) l
| m_ws w : PyStr.all_chars PyStr.isspace w = true -> matches WsStar w
| m_seq r1 r2 w1 w2 :
    matches r1 w1 -> matches r2 w2 -> matches (Seq r1 r2) (w1 ++ w2)
| m_alt_l r1 r2 w : matches r1 w -> matches (Alt r1 r2) w
| m_alt_r r1 r2 w : matches r2 w -> matches (Alt r1 r2) w
| m_opt_some r w : matches r w -> matches (Opt r) w
| m_opt_none r : matches (Opt r) "".

(** [alts [r1; ...; rn]] is [r1|...|rn]. *)
Fixpoint alts (rs : list re) : re :=
  match rs with
  | [] => Lit ""
  | [r] => r
  | r :: rs' => Alt r (alts rs')
  end.

End Re.

(* ================================================================== *)
(** * extract_pdf_data.py: honorifics and headers *)
(* ================================================================== *)

Import Re.

(** A literal followed by [\s*], as in [Mr\.\s*]. *)
Definition lit_ws (l : string) : re := Seq (Lit l) WsStar.

(** The alternatives of the optional group after [H\.E]. *)
Definition he_suffixes : list re :=
  [ lit_ws "Ms."; lit_ws "Mr."; Lit "Ms "; Lit "Mr "; Lit "Sra "; Lit "Sr ";
    lit_ws "Sra."; Lit "Mme"; lit_ws "Sr."; lit_ws "Msgr." ].

(** The alternatives of the optional group after [S\.E]. *)
Definition se_suffixes : list re :=
  [ lit_ws "Ms."; lit_ws "Mr."; Lit "Mme"; Lit "Mr"; Lit "Ms"; Lit "Dr";
    lit_ws "Msgr."; lit_ws "M."; Lit "Ms "; Lit "Mr "; Lit "Sra "; Lit "Sr ";
    Lit "M "; lit_ws "Sra."; lit_ws "Sr." ].

(** The honorific fragments, in the order of the alternation of
    [title_match_pattern]. *)
Definition title_fragments : list re :=
  [ lit_ws "Mr."; lit_ws "H.R.H."; lit_ws "Mx."; Lit "St."; Lit "Miss ";
    Lit "Mlle "; Lit "Mine "; lit_ws "H.H."; lit_ws "Ind."; Lit "His ";
    Lit "Ind "; Lit "Ms "; Lit "Mr "; Lit "Sra "; Lit "Sr "; Lit "M ";
    Lit "On "; Lit "M "; Lit "Fr "; lit_ws "H.O."; Lit "Rev "; Lit "Mme ";
    Lit "Sr "; Lit "Msgr "; lit_ws "On."; lit_ws "Fr."; lit_ws "Rev.";
    Seq (Lit "H.E") (Opt (Seq (Lit ".") (Seq WsStar (alts he_suffixes))));
    lit_ws "Msgr."; lit_ws "Mrs."; lit_ws "Sra."; lit_ws "Sr."; lit_ws "Ms.";
    lit_ws "Dr."; lit_ws "Prof."; lit_ws "M."; Lit "Mme"; Lit "Ms";
    Seq (Lit "S.E") (Opt (Seq (Lit ".") (Seq WsStar (alts se_suffixes)))) ].

(** [title_match_pattern] *)
Definition title_match_pattern : re := alts title_fragments.

(** [split_honorific_and_person(line)] *)
Definition split_honorific_and_person (line : string) : string * string :=
  let s := PyStr.strip line in
  match match_ title_match_pattern s with
  | Some n =>
      let honorific := PyStr.strip (String.substring 0 n s) in
      let person := PyStr.strip (PyStr.drop n s) in
      (honorific, person)
  | None => ("", s)
  end.

(** [c.isupper() or c in " /"] *)
Definition header_char (c : ascii) : bool :=
  PyStr.isupper c || Ascii.eqb c " " || Ascii.eqb c "/".

(** [is_all_caps_header(text)] *)
Definition is_all_caps_header (text : string) : bool :=
  if negb (PyStr.truthy text) then false
  else
    let s := PyStr.strip text in
    PyStr.truthy s && PyStr.all_chars header_char s.


(* ================================================================== *)
(** * Python values the engine handles *)
(* ================================================================== *)

Open Scope list_scope.

(** A call either returns or raises. *)
Inductive outcome (A : Type) : Type :=
| Returns (a : A)
| Raises (exn : string).
Arguments Returns {A} a.
Arguments Raises {A} exn.

(** [a < b] on coordinates. *)
Definition Qltb (a b : Q) : bool := negb (Qle_bool b a).

(** [sorted(l, key=...)]: a stable sort that compares by [<] on the keys;
    [lt a b] is [key(a) < key(b)].  Elements with equal keys keep their
    order. *)
Fixpoint insert_by {A} (lt : A -> A -> bool) (x : A) (l : list A) : list A :=
  match l with
  | [] => [x]
  | y :: l' => if lt y x then y :: insert_by lt x l' else x :: l
  end.

Fixpoint sorted_by {A} (lt : A -> A -> bool) (l : list A) : list A :=
  match l with
  | [] => []
  | x :: l' => insert_by lt x (sorted_by lt l')
  end.

(** A word of [page.extract_words()] or of the OCR transcript. *)
Record word : Type := mk_word { w_text : string; w_x0 : Q; w_top : Q }.

(** A character of [page.chars]; the font name may be absent. *)
Record pchar : Type :=
  mk_char { c_text : string; c_x0 : Q; c_top : Q; c_fontname : option string }.

(** The sort key [(w["top"], w["x0"])], compared as Python compares tuples. *)
Definition top_x0_lt (t1 x1 t2 x2 : Q) : bool :=
  Qltb t1 t2 || (Qeq_bool t1 t2 && Qltb x1 x2).

Definition word_key_lt (a b : word) : bool :=
  top_x0_lt (w_top a) (w_x0 a) (w_top b) (w_x0 b).
Definition word_x0_lt (a b : word) : bool := Qltb (w_x0 a) (w_x0 b).
Definition char_key_lt (a b : pchar) : bool :=
  top_x0_lt (c_top a) (c_x0 a) (c_top b) (c_x0 b).
Definition char_x0_lt (a b : pchar) : bool := Qltb (c_x0 a) (c_x0 b).

(** A line with its font weight: [(text, y0, y1, is_bold)]. *)
Definition bline : Type := string * Q * Q * bool.
(** A line: [(text, y0, y1)]. *)
Definition yline : Type := string * Q * Q.
(** A paragraph: [([line1, line2, ...], block_y0, block_y1)]. *)
Definition para : Type := list string * Q * Q.

(** The output row. *)
Record Record_ : Type := mk_Record {
  Delegation : string;
  Honorific : string;
  Person_Name : string;
  Affiliation : string
}.

(* ================================================================== *)
(** * extract_pdf_data.py: line clustering *)
(* ================================================================== *)

(** [abs(top - y1) <= y_tol] *)
Definition same_line (top y1 y_tol : Q) : bool :=
  Qle_bool (Qabs (top - y1)) y_tol.

(** One turn of the clustering loop of [group_chars_to_lines]; the state is
    [(lines, cur, y0, y1)]. *)
Definition chars_step (y_tol : Q)
    (st : list (list pchar * Q * Q) * list pchar * Q * Q) (c : pchar) :=
  let '(lines, cur, y0, y1) := st in
  let top := c_top c in
  if same_line top y1 y_tol then (lines, cur ++ [c], y0, top)
  else (lines ++ [(cur, y0, y1)], [c], top, top).

(** ['Bold' in (c.get('fontname') or '')] *)
Definition char_is_bold (c : pchar) : bool :=
  PyStr.contains "Bold" (match c_fontname c with Some f => f | None => "" end).

(** The second loop of [group_chars_to_lines]: text and weight of a
    cluster. *)
Definition finish_char_line (l : list pchar * Q * Q) : bline :=
  let '(line_chars, y0, y1) := l in
  let line_chars := sorted_by char_x0_lt line_chars in
  let text := PyStr.strip (PyStr.join "" (map c_text line_chars)) in
  let is_bold := existsb char_is_bold line_chars in
  (text, y0, y1, is_bold).

(** [group_chars_to_lines(chars, y_tol)] *)
Definition group_chars_to_lines (chars : list pchar) (y_tol : Q) : list bline :=
  match chars with
  | [] => []
  | _ =>
      match sorted_by char_key_lt chars with
      | [] => []
      | c0 :: rest =>
          let '(lines, cur, y0, y1) :=
            fold_left (chars_step y_tol) rest ([], [c0], c_top c0, c_top c0) in
          map finish_char_line (lines ++ [(cur, y0, y1)])
      end
  end.

(** The text of a cluster of words: sorted by [x0], joined by a space. *)
Definition flush_words (cur : list word) : string :=
  PyStr.join " " (map w_text (sorted_by word_x0_lt cur)).

(** One turn of the loop of [group_words_to_lines_with_y]. *)
Definition words_step (y_tol : Q)
    (st : list yline * list word * Q * Q) (w : word) :=
  let '(lines, cur, y0, y1) := st in
  let top := w_top w in
  if same_line top y1 y_tol then (lines, cur ++ [w], y0, top)
  else (lines ++ [(flush_words cur, y0, y1)], [w], top, top).

(** [group_words_to_lines_with_y(words, y_tol)] *)
Definition group_words_to_lines_with_y (words : list word) (y_tol : Q)
  : list yline :=
  match words with
  | [] => []
  | _ =>
      match sorted_by word_key_lt words with
      | [] => []
      | w0 :: rest =>
          let '(lines, cur, y0, y1) :=
            fold_left (words_step y_tol) rest ([], [w0], w_top w0, w_top w0) in
          lines ++ [(flush_words cur, y0, y1)]
      end
  end.

(* ================================================================== *)
(** * extract_pdf_data.py: paragraph segmentation *)
(* ================================================================== *)

(** [mids = [(y0 + y1) / 2.0 for _, y0, y1 in lines_with_y]] *)
Definition mids_of (lines_with_y : list yline) : list Q :=
  map (fun l => let '(_, y0, y1) := l in ((y0 + y1) / 2)%Q) lines_with_y.

(** [diffs = [mids[i + 1] - mids[i] for i in range(len(mids) - 1)]] *)
Fixpoint diffs_of (mids : list Q) : list Q :=
  match mids with
  | a :: (b :: _) as tl => (b - a)%Q :: diffs_of tl
  | _ => []
  end.

(** [sorted(diffs)[len(diffs) // 2]], for a non-empty [diffs]. *)
Definition median_gap_of (diffs : list Q) : Q :=
  nth (List.length diffs / 2) (sorted_by Qltb diffs) 0%Q.

(** [x if x is not None else d] *)
Definition if_not_none (x : option Q) (d : Q) : Q :=
  match x with Some v => v | None => d end.

(** The state of the segmentation loop:
    [(paras, cur_lines, block_y0, block_y1, prev_mid)]. *)
Definition para_state : Type :=
  list para * list string * option Q * option Q * option Q.

(** [bool(l)] for a list. *)
Definition nonempty {A} (l : list A) : bool :=
  match l with [] => false | _ => true end.

(** One turn of the loop of [collect_paragraphs_with_y]. *)
Definition para_step (thresh : Q) (st : para_state) (item : yline * Q)
  : para_state :=
  let '(paras, cur_lines, block_y0, block_y1, prev_mid) := st in
  let '((txt, y0, y1), mid) := item in
  let '(paras, cur_lines, block_y0, block_y1) :=
    if match prev_mid with
       | Some p => Qltb thresh (mid - p)
       | None => false
       end && nonempty cur_lines
    then (paras ++ [(cur_lines, if_not_none block_y0 y0, if_not_none block_y1 y1)],
          [], None, None)
    else (paras, cur_lines, block_y0, block_y1) in
  let block_y0 := if nonempty cur_lines then block_y0 else Some y0 in
  (paras, cur_lines ++ [txt], block_y0, Some y1, Some mid).

(** The paragraph-break threshold of a sequence of at least two lines:
    [median_gap * para_factor]. *)
Definition para_thresh (lines_with_y : list yline) (para_factor : Q) : Q :=
  (median_gap_of (diffs_of (mids_of lines_with_y)) * para_factor)%Q.

(** The scan of [collect_paragraphs_with_y] once [thresh] is known: the loop
    over [zip(lines_with_y, mids)], then the flush of the open paragraph. *)
Definition segment_at (thresh : Q) (lines_with_y : list yline) : list para :=
  let '(paras, cur_lines, block_y0, block_y1, _) :=
    fold_left (para_step thresh) (combine lines_with_y (mids_of lines_with_y))
              ([], [], None, None, None) in
  if nonempty cur_lines
  then paras ++ [(cur_lines, if_not_none block_y0 0, if_not_none block_y1 0)]
  else paras.

(** [collect_paragraphs_with_y(lines_with_y, para_factor)] *)
Definition collect_paragraphs_with_y (lines_with_y : list yline)
    (para_factor : Q) : list para :=
  match lines_with_y with
  | [] => []
  | l0 :: _ =>
      let mids := mids_of lines_with_y in
      let diffs := diffs_of mids in
      if negb (nonempty diffs) then
        let '(t0, y0, y1) := l0 in [([t0], y0, y1)]
      else
        let thresh := para_thresh lines_with_y para_factor in
        segment_at thresh lines_with_y
  end.

(* ================================================================== *)
(** * extract_pdf_data.py: the single-column assembler *)
(* ================================================================== *)

(** Truth value of an optional string: [None] and [""] are false. *)
Definition opt_truthy (o : option string) : bool :=
  match o with Some s => PyStr.truthy s | None => false end.

(** [o or ""] *)
Definition or_empty (o : option string) : string :=
  if opt_truthy o then match o with Some s => s | None => "" end else "".

(** The [while i < len(lines)] loop of [extract_singlecol_textpdf] on the
    lines of one page; the argument [lines] is [lines[i:]].  The inner
    [while] that gathers the affiliation is the local [collect], which hands
    the lines it did not consume back to the outer loop. *)
Fixpoint singlecol_walk (current_delegation : option string)
    (lines : list bline) {struct lines} : list Record_ :=
  match lines with
  | [] => []
  | (text, _, _, is_bold) :: rest =>
      if is_bold && PyStr.truthy text then
        singlecol_walk (Some (PyStr.strip (PyStr.split1_head "/" text))) rest
      else if opt_truthy current_delegation && PyStr.truthy text then
        let '(honorific, person) := split_honorific_and_person text in
        (fix collect (affiliation_lines : list string) (ls : list bline)
             {struct ls} : list Record_ :=
           let emit :=
             mk_Record (or_empty current_delegation) honorific person
               (PyStr.strip (PyStr.join " " affiliation_lines)) in
           match ls with
           | (t, _, _, b) :: ls' =>
               if negb b && PyStr.truthy (PyStr.strip t)
               then collect (affiliation_lines ++ [PyStr.strip t]) ls'
               else emit :: singlecol_walk current_delegation ls
           | [] => emit :: singlecol_walk current_delegation ls
           end) [] rest
      else singlecol_walk current_delegation rest
  end.

(** The records of one page of [extract_singlecol_textpdf]. *)
Definition singlecol_page (chars : list pchar) : list Record_ :=
  singlecol_walk None (group_chars_to_lines chars 3).

(** [extract_singlecol_textpdf(pdf_path)]; the document is the list of the
    [page.chars] of its pages. *)
Definition extract_singlecol_textpdf (pdf : list (list pchar)) : list Record_ :=
  flat_map singlecol_page pdf.

(* ================================================================== *)
(** * extract_pdf_data.py: the two-column assembler *)
(* ================================================================== *)

(** [len(blk) == 1 and is_all_caps_header(blk[0])] *)
Definition is_header_block (blk : list string) : bool :=
  match blk with
  | [t] => is_all_caps_header t
  | _ => false
  end.

(** The loop that fills [headers], before it is sorted. *)
Fixpoint collect_headers (full_paras : list para) : list (Q * string) :=
  match full_paras with
  | [] => []
  | (blk, y0, y1) :: tl =>
      if is_header_block blk then
        let nm := PyStr.strip (PyStr.split1_head "/" (hd "" blk)) in
        let mid := ((y0 + y1) / 2)%Q in
        (mid, nm) :: collect_headers tl
      else collect_headers tl
  end.

(** [headers], after [headers.sort(key=lambda x: x[0])]. *)
Definition page_headers (words : list word) : list (Q * string) :=
  let full_lines := group_words_to_lines_with_y words 3 in
  let full_paras := collect_paragraphs_with_y full_lines (3 # 2) in
  sorted_by (fun a b => Qltb (fst a) (fst b)) (collect_headers full_paras).

(** The loop of [header_for_mid], [ans] being its variable. *)
Fixpoint header_scan (headers : list (Q * string)) (mid : Q)
    (ans : option string) : option string :=
  match headers with
  | [] => ans
  | (m, name) :: tl =>
      if Qle_bool m mid then header_scan tl mid (Some name) else ans
  end.

(** [header_for_mid(mid)] *)
Definition header_for_mid (headers : list (Q * string)) (mid : Q)
  : option string :=
  header_scan headers mid None.

(** The record built from a column paragraph that is not skipped. *)
Definition record_of_block (headers : list (Q * string)) (p : para) : Record_ :=
  let '(blk, y0, y1) := p in
  let name_line := PyStr.strip (hd "" blk) in
  let '(honorific, person) := split_honorific_and_person name_line in
  let affiliation :=
    PyStr.strip (PyStr.join " " (map PyStr.strip (tl blk))) in
  let mid := ((y0 + y1) / 2)%Q in
  let delegation := or_empty (header_for_mid headers mid) in
  mk_Record delegation honorific person affiliation.

(** The loop over the paragraphs of one column. *)
Fixpoint column_records (headers : list (Q * string)) (paras : list para)
  : list Record_ :=
  match paras with
  | [] => []
  | (blk, y0, y1) :: tl =>
      if is_header_block blk then column_records headers tl
      else if negb (nonempty blk) then column_records headers tl
      else record_of_block headers (blk, y0, y1) :: column_records headers tl
  end.

(** [left_words] and [right_words] *)
Definition left_words (words : list word) (x0_thresh : Q) : list word :=
  sorted_by word_key_lt (filter (fun w => Qltb (w_x0 w) x0_thresh) words).
Definition right_words (words : list word) (x0_thresh : Q) : list word :=
  sorted_by word_key_lt (filter (fun w => Qle_bool x0_thresh (w_x0 w)) words).

(** The paragraphs of a column. *)
Definition column_paras (col_words : list word) : list para :=
  collect_paragraphs_with_y (group_words_to_lines_with_y col_words 3) (3 # 2).

(** [_twocol_records_from_words(words, x0_thresh)] *)
Definition _twocol_records_from_words (words : list word) (x0_thresh : Q)
  : list Record_ :=
  let headers := page_headers words in
  flat_map (fun col_words => column_records headers (column_paras col_words))
           [left_words words x0_thresh; right_words words x0_thresh].

(** [extract_twocol_textpdf(pdf_path, x0_thresh)]; the document is the list
    of the [page.extract_words() or []] of its pages. *)
Definition extract_twocol_textpdf (pdf : list (list word)) (x0_thresh : Q)
  : list Record_ :=
  flat_map (fun words =>
              if negb (nonempty words) then []
              else _twocol_records_from_words words x0_thresh) pdf.

(* ================================================================== *)
(** * extract_pdf_data.py: layout detection *)
(* ================================================================== *)

(** [left] and [right] of [detect_layout_quick]. *)
Definition count_left (words : list word) (x0_thresh : Q) : nat :=
  List.length (filter (fun w => Qltb (w_x0 w) x0_thresh) words).
Definition count_right (words : list word) (x0_thresh : Q) : nat :=
  List.length (filter (fun w => Qle_bool x0_thresh (w_x0 w)) words).

(** [n / total >= 0.25] for two counts, the quotient being kept exact. *)
Definition share_ge_quarter (n total : nat) : bool :=
  Qle_bool (1 # 4) (inject_Z (Z.of_nat n) / inject_Z (Z.of_nat total)).

(** The body of the [try] of [detect_layout_quick], over the pages
    [pdf.pages[:2]]; a page is what [page.extract_words()] does on it. *)
Fixpoint detect_loop (pages : list (outcome (list word))) (x0_thresh : Q)
  : outcome string :=
  match pages with
  | [] => Returns "one"
  | Raises e :: _ => Raises e
  | Returns words :: tl =>
      if negb (nonempty words) then detect_loop tl x0_thresh
      else
        let left := count_left words x0_thresh in
        let right := count_right words x0_thresh in
        let total := left + right in
        if (total =? 0)%nat then detect_loop tl x0_thresh
        else if share_ge_quarter left total && share_ge_quarter right total
        then Returns "two"
        else detect_loop tl x0_thresh
  end.

(** [detect_layout_quick(pdf_path, x0_thresh)]; the document is what
    [pdfplumber.open] does on it, and then what each page does when its
    words are read. *)
Definition detect_layout_quick (pdf : outcome (list (outcome (list word))))
    (x0_thresh : Q) : string :=
  match pdf with
  | Raises _ => "one"
  | Returns pages =>
      match detect_loop (firstn 2 pages) x0_thresh with
      | Returns mode => mode
      | Raises _ => "one"
      end
  end.

(* ================================================================== *)
(** * extract_pdf_data.py: the entry point *)
(* ================================================================== *)

(** A page of a text PDF that can be read: its characters and its words. *)
Record page : Type := mk_page { p_chars : list pchar; p_words : list word }.

(** [extract_with_ocr(pdf_path, x0_thresh)]; the document is the list of the
    [ocr_page_to_words(img)] of its page images. *)
Definition extract_with_ocr (ocr_pages : list (list word)) (x0_thresh : Q)
  : list Record_ :=
  flat_map (fun words =>
              if negb (nonempty words) then []
              else _twocol_records_from_words words x0_thresh) ocr_pages.

(** [extract_cites(pdf_path, layout, x0_thresh, force_ocr)] on a document
    that can be read: [pdf] are its pages as a text PDF and [ocr_pages] the
    words of its page images. *)
Definition extract_cites (pdf : list page) (ocr_pages : list (list word))
    (layout : string) (x0_thresh : Q) (force_ocr : bool) : list Record_ :=
  if force_ocr then extract_with_ocr ocr_pages x0_thresh
  else
    let mode :=
      if String.eqb layout "auto"
      then detect_layout_quick
             (Returns (map (fun p => Returns (p_words p)) pdf)) x0_thresh
      else layout in
    if String.eqb mode "two"
    then extract_twocol_textpdf (map p_words pdf) x0_thresh
    else extract_singlecol_textpdf (map p_chars pdf).

(* ================================================================== *)
(** * single_column_bold_extract.py *)
(* ================================================================== *)

Module SingleColumnBold.

(** [group_chars_to_lines(chars, y_tol)]: [chars[0]] is read without a
    test of [chars]. *)
Definition group_chars_to_lines (chars : list pchar) (y_tol : Q)
  : outcome (list bline) :=
  match sorted_by char_key_lt chars with
  | [] => Raises "IndexError"
  | c0 :: rest =>
      let '(lines, cur, y0, y1) :=
        fold_left (chars_step y_tol) rest ([], [c0], c_top c0, c_top c0) in
      Returns (map (fun l =>
                 let '(line_chars, y0, y1) := l in
                 let line_chars := sorted_by char_x0_lt line_chars in
                 let text := PyStr.strip (PyStr.join "" (map c_text line_chars)) in
                 let is_bold :=
                   existsb (fun c => PyStr.contains "Bold"
                              (match c_fontname c with Some f => f | None => "" end))
                           line_chars in
                 (text, y0, y1, is_bold))
               (lines ++ [(cur, y0, y1)]))
  end.

(** The rows of this script have no honorific. *)
Record row : Type := mk_row {
  r_Delegation : string;
  r_Person_Name : string;
  r_Affiliation : string
}.

(** The [while] loop of [extract_delegation_records] on one page. *)
Fixpoint walk (delegation : option string) (lines : list bline)
    {struct lines} : list row :=
  match lines with
  | [] => []
  | (text, _, _, is_bold) :: rest =>
      if is_bold && PyStr.truthy text then
        walk (Some (PyStr.strip (PyStr.split1_head "/" text))) rest
      else if opt_truthy delegation && PyStr.truthy text then
        (fix collect (affiliation_lines : list string) (ls : list bline)
             {struct ls} : list row :=
           let emit :=
             mk_row (or_empty delegation) text
               (PyStr.strip (PyStr.join " " affiliation_lines)) in
           match ls with
           | (t, _, _, b) :: ls' =>
               if negb b && PyStr.truthy (PyStr.strip t)
               then collect (affiliation_lines ++ [t]) ls'
               else emit :: walk delegation ls
           | [] => emit :: walk delegation ls
           end) [] rest
      else walk delegation rest
  end.

(** [extract_delegation_records(pdf_path)]: the pages in order, [records]
    being the accumulator; an exception of a page ends the call. *)
Fixpoint extract_pages (records : list row) (pdf : list (list pchar))
  : outcome (list row) :=
  match pdf with
  | [] => Returns records
  | chars :: tl =>
      match group_chars_to_lines chars 3 with
      | Raises e => Raises e
      | Returns lines => extract_pages (records ++ walk None lines) tl
      end
  end.

Definition extract_delegation_records (pdf : list (list pchar))
  : outcome (list row) :=
  extract_pages [] pdf.

End SingleColumnBold.

(* ================================================================== *)
(** * two_columns_file_extract.py *)
(* ================================================================== *)

Module TwoColumnsFile.

(** A paragraph of this script: the block bounds are the loop variables
    [block_y0], [block_y1] as they are, [None] included. *)
Definition para_ : Type := list string * option Q * option Q.

Definition para_state_ : Type :=
  list para_ * list string * option Q * option Q * option Q.

(** One turn of the loop of [collect_paragraphs_with_y]. *)
Definition para_step (thresh : Q) (st : para_state_) (item : yline * Q)
  : para_state_ :=
  let '(paras, cur_lines, block_y0, block_y1, prev_mid) := st in
  let '((txt, y0, y1), mid) := item in
  let '(paras, cur_lines, block_y0, block_y1) :=
    if match prev_mid with
       | Some p => Qltb thresh (mid - p)
       | None => false
       end && nonempty cur_lines
    then (paras ++ [(cur_lines, block_y0, block_y1)], [], None, None)
    else (paras, cur_lines, block_y0, block_y1) in
  let block_y0 := if nonempty cur_lines then block_y0 else Some y0 in
  (paras, cur_lines ++ [txt], block_y0, Some y1, Some mid).

(** [sorted(diffs)[len(diffs)//2] if diffs else 0] *)
Definition median_gap (diffs : list Q) : Q :=
  if nonempty diffs
  then nth (List.length diffs / 2) (sorted_by Qltb diffs) 0%Q
  else 0%Q.

(** [collect_paragraphs_with_y(lines_with_y, para_factor)] *)
Definition collect_paragraphs_with_y (lines_with_y : list yline)
    (para_factor : Q) : list para_ :=
  match lines_with_y with
  | [] => []
  | _ =>
      let mids := mids_of lines_with_y in
      let diffs := diffs_of mids in
      let thresh := (median_gap diffs * para_factor)%Q in
      let '(paras, cur_lines, block_y0, block_y1, _) :=
        fold_left (para_step thresh) (combine lines_with_y mids)
                  ([], [], None, None, None) in
      if nonempty cur_lines
      then paras ++ [(cur_lines, block_y0, block_y1)]
      else paras
  end.

(** [group_words_to_lines_with_y(words, y_tol)]: the words are taken in the
    order given; the caller sorts them. *)
Definition group_words_to_lines_with_y (words : list word) (y_tol : Q)
  : list yline :=
  match words with
  | [] => []
  | w0 :: rest =>
      let '(lines, cur, y0, y1) :=
        fold_left (words_step y_tol) rest ([], [w0], w_top w0, w_top w0) in
      lines ++ [(flush_words cur, y0, y1)]
  end.

(** [is_delegation(txt)] *)
Definition is_delegation (txt : string) : bool :=
  let s := PyStr.strip txt in
  PyStr.truthy s && PyStr.all_chars header_char s.

(** [(y0 + y1) / 2] on bounds that may be [None]. *)
Definition block_mid (y0 y1 : option Q) : outcome Q :=
  match y0, y1 with
  | Some a, Some b => Returns ((a + b) / 2)%Q
  | _, _ => Raises "TypeError"
  end.

(** The rows of this script; the delegation may be [None]. *)
Record row_ : Type := mk_row_ {
  f_Delegation : option string;
  f_Honorific : string;
  f_Person_Name : string;
  f_Affiliation : string
}.

(** [len(blk)==1 and is_delegation(blk[0])] *)
Definition is_header_block_ (blk : list string) : bool :=
  match blk with
  | [t] => is_delegation t
  | _ => false
  end.

(** The loop that fills [headers], before it is sorted. *)
Fixpoint collect_headers (full_paras : list para_)
  : outcome (list (Q * string)) :=
  match full_paras with
  | [] => Returns []
  | (blk, y0, y1) :: tl =>
      if is_header_block_ blk then
        let name := PyStr.strip (PyStr.split1_head "/" (hd "" blk)) in
        match block_mid y0 y1 with
        | Raises e => Raises e
        | Returns mid =>
            match collect_headers tl with
            | Raises e => Raises e
            | Returns hs => Returns ((mid, name) :: hs)
            end
        end
      else collect_headers tl
  end.

(** [find_delegation(block_mid)] *)
Definition find_delegation (headers : list (Q * string)) (block_mid : Q)
  : option string :=
  header_scan headers block_mid None.

(** The loop over the paragraphs of one column; [pat] is the
    [title_match_pattern] that the script imports from [inputs_file]. *)
Fixpoint column_rows (pat : re) (headers : list (Q * string))
    (paras : list para_) : outcome (list row_) :=
  match paras with
  | [] => Returns []
  | (blk, y0, y1) :: tl =>
      if is_header_block_ blk then column_rows pat headers tl
      else
        match blk with
        | [] => Raises "IndexError"
        | first :: others =>
            let name_line := PyStr.strip first in
            let '(honorific, person) :=
              match match_ pat name_line with
              | Some n => (PyStr.strip (String.substring 0 n name_line),
                           PyStr.strip (PyStr.drop n name_line))
              | None => ("", name_line)
              end in
            let affiliation := PyStr.strip (PyStr.join " " others) in
            match block_mid y0 y1 with
            | Raises e => Raises e
            | Returns mid =>
                let delegation := find_delegation headers mid in
                match column_rows pat headers tl with
                | Raises e => Raises e
                | Returns rows =>
                    Returns (mk_row_ delegation honorific person affiliation
                             :: rows)
                end
            end
        end
  end.

(** The body of the page loop of [extract_by_blank_lines]. *)
Definition page_rows (pat : re) (words : list word) (x0_thresh : Q)
  : outcome (list row_) :=
  let full_lines := sorted_by word_key_lt words in
  let full_lined := group_words_to_lines_with_y full_lines 3 in
  let full_paras := collect_paragraphs_with_y full_lined (3 # 2) in
  match collect_headers full_paras with
  | Raises e => Raises e
  | Returns hs =>
      let headers := sorted_by (fun a b => Qltb (fst a) (fst b)) hs in
      let left_lined :=
        group_words_to_lines_with_y (left_words words x0_thresh) 3 in
      let right_lined :=
        group_words_to_lines_with_y (right_words words x0_thresh) 3 in
      let left_paras := collect_paragraphs_with_y left_lined (3 # 2) in
      let right_paras := collect_paragraphs_with_y right_lined (3 # 2) in
      match column_rows pat headers left_paras with
      | Raises e => Raises e
      | Returns l =>
          match column_rows pat headers right_paras with
          | Raises e => Raises e
          | Returns r => Returns (l ++ r)
          end
      end
  end.

(** [extract_by_blank_lines(pdf_path, x0_thresh)]: the pages in order,
    [records] being the accumulator; the document is the list of the
    [page.extract_words()] of its pages. *)
Fixpoint extract_pages (pat : re) (records : list row_)
    (pdf : list (list word)) (x0_thresh : Q) : outcome (list row_) :=
  match pdf with
  | [] => Returns records
  | words :: tl =>
      match page_rows pat words x0_thresh with
      | Raises e => Raises e
      | Returns rows => extract_pages pat (records ++ rows) tl x0_thresh
      end
  end.

Definition extract_by_blank_lines (pat : re) (pdf : list (list word))
    (x0_thresh : Q) : outcome (list row_) :=
  extract_pages pat [] pdf x0_thresh.

End TwoColumnsFile.

(* ================================================================== *)
(** * Vocabulary of the properties *)
(* ================================================================== *)

(** A line starts with an honorific: some fragment of the ordered list
    matches some prefix of it. *)
Definition has_honorific_prefix (line : string) : Prop :=
  exists frag w rest,
    In frag title_fragments /\ matches frag w /\ line = (w ++ rest)%string.

(** The lines, and the vertical midpoint, of a paragraph. *)
Definition para_lines (p : para) : list string := fst (fst p).
Definition para_mid (p : para) : Q :=
  let '(_, y0, y1) := p in ((y0 + y1) / 2)%Q.

(** The text of a line. *)
Definition yline_text (l : yline) : string := fst (fst l).

(** A page has a qualifying two-column split: it has tokens, and the tokens
    left of the threshold and those at or right of it are each at least a
    quarter of the page's tokens. *)
Definition qualifying_split (words : list word) (x0_thresh : Q) : Prop :=
  0 < List.length words
  /\ List.length words <= 4 * count_left words x0_thresh
  /\ List.length words <= 4 * count_right words x0_thresh.

(** The two column streams of a page. *)
Definition page_columns (words : list word) (x0_thresh : Q) : list (list word) :=
  [left_words words x0_thresh; right_words words x0_thresh].

(** The paragraphs closed so far and the lines of the open one, in a state
    of the segmentation loop. *)
Definition st_paras (st : para_state) : list para :=
  let '(paras, _, _, _, _) := st in paras.
Definition st_cur (st : para_state) : list string :=
  let '(_, cur_lines, _, _, _) := st in cur_lines.

(** The line texts of a sequence of paragraphs, in order. *)
Definition texts_of_paras (ps : list para) : list string :=
  List.concat (map para_lines ps).

(** [s.startswith(l)] *)
Definition startswith (l s : string) : bool :=
  match lit_at l s with Some _ => true | None => false end.

(** A column paragraph is suppressed: it is one header-shaped line. *)
Definition suppressed (p : para) : bool := is_header_block (para_lines p).

(** A page with one header, ARGENTINA at height 100, a block of three lines
    above it and one below it. *)
Definition page_with_preamble : list word :=
  [ mk_word "Jane" 50 10; mk_word "Roe" 80 10;
    mk_word "Dept." 50 22; mk_word "Unit" 50 34;
    mk_word "ARGENTINA" 50 100;
    mk_word "John" 50 160; mk_word "Poe" 80 160;
    mk_word "Office" 50 172; mk_word "Division" 50 184 ]%Q.

(** A page whose left column is one block of two lines, the first of them
    the header-shaped "M SMITH". *)
Definition page_m_smith : list word :=
  [ mk_word "M" 50 10; mk_word "SMITH" 80 10; mk_word "Dept." 50 22 ]%Q.

(** A page with a word on each side of the threshold 260. *)
Definition page_two_sides : list word :=
  [ mk_word "Jane" 50 10; mk_word "John" 300 10 ]%Q.

(** A text that does not start with white space. *)
Definition no_leading_space (s : string) : Prop :=
  match s with
  | EmptyString => True
  | String c _ => PyStr.isspace c = false
  end.

(** A paragraph of [extract_pdf_data.py] as [two_columns_file_extract.py]
    holds it, and the same for a state of the loop. *)
Definition lift_para (p : para) : TwoColumnsFile.para_ :=
  let '(ls, y0, y1) := p in (ls, Some y0, Some y1).
Definition lift_state (st : para_state) : TwoColumnsFile.para_state_ :=
  let '(paras, cur_lines, block_y0, block_y1, prev_mid) := st in
  (map lift_para paras, cur_lines, block_y0, block_y1, prev_mid).

(** While a paragraph is open its bounds are set. *)
Definition bounds_set (st : para_state) : Prop :=
  let '(_, cur_lines, block_y0, block_y1, _) := st in
  cur_lines <> [] -> block_y0 <> None /\ block_y1 <> None.

(** The affiliation lines that follow a name line, trimmed, and the lines
    left after them: the run of lines that are neither bold nor blank. *)
Fixpoint affiliation_span (ls : list bline) : list string * list bline :=
  match ls with
  | (t, _, _, b) :: ls' =>
      if negb b && PyStr.truthy (PyStr.strip t)
      then let '(aff, rest) := affiliation_span ls' in (PyStr.strip t :: aff, rest)
      else ([], ls)
  | [] => ([], [])
  end.

(** A page that holds the one line "SWITZERLAND / SUISSE / SUIZA". *)
Definition page_switzerland : list word :=
  [ mk_word "SWITZERLAND" 50 10; mk_word "/" 120 10; mk_word "SUISSE" 130 10;
    mk_word "/" 170 10; mk_word "SUIZA" 180 10 ]%Q.

(** The leading literal of a fragment. *)
Definition leading_lit (r : re) : option string :=
  match r with
  | Lit l => Some l
  | Seq (Lit l) _ => Some l
  | _ => None
  end.

(** A fragment cannot start a header-shaped text, but for the fragment
    [M\ ]: its leading literal has a second character that no header has. *)
Definition unfit_for_header (r : re) : bool :=
  match leading_lit r with
  | Some (String _ (String b _)) =>
      negb (header_char b)
      || match r with Lit l => String.eqb l "M " | _ => false end
  | _ => false
  end.

(* ================================================================== *)
(** * Vocabulary of the further properties *)
(* ================================================================== *)

(** The clustering loop on any kind of token: the turn of
    [group_chars_to_lines], with the vertical position of the token as a
    parameter. *)
Definition cluster_step {A} (top : A -> Q) (y_tol : Q)
    (st : list (list A * Q * Q) * list A * Q * Q) (a : A) :=
  let '(lines, cur, y0, y1) := st in
  if same_line (top a) y1 y_tol then (lines, cur ++ [a], y0, top a)
  else (lines ++ [(cur, y0, y1)], [a], top a, top a).

(** The clusters of a state, closed and open, with their bounds. *)
Definition clusters_of {A} (st : list (list A * Q * Q) * list A * Q * Q)
  : list (list A * Q * Q) :=
  let '(lines, cur, y0, y1) := st in lines ++ [(cur, y0, y1)].

(** A cluster with bounds [y0], [y1]: it is not empty, [y0] is the position
    of its first token and [y1] that of its last, and every token lies
    between the two. *)
Definition cluster_ok {A} (top : A -> Q) (c : list A * Q * Q) : Prop :=
  let '(cl, y0, y1) := c in
  (exists x tl, cl = x :: tl /\ y0 = top x)
  /\ (exists pre x, cl = pre ++ [x] /\ y1 = top x)
  /\ Forall (fun x => (y0 <= top x)%Q /\ (top x <= y1)%Q) cl.

(** The tokens of [l] come at or below [y], one after the other. *)
Fixpoint ascending {A} (top : A -> Q) (y : Q) (l : list A) : Prop :=
  match l with
  | [] => True
  | a :: l' => (y <= top a)%Q /\ ascending top (top a) l'
  end.

(** The vertical span [(y0, y1)] of a cluster, and of a line. *)
Definition cluster_span {A} (c : list A * Q * Q) : Q * Q :=
  let '(_, y0, y1) := c in (y0, y1).
Definition yline_span (l : yline) : Q * Q := let '(_, y0, y1) := l in (y0, y1).
Definition bline_span (l : bline) : Q * Q := let '(_, y0, y1, _) := l in (y0, y1).
Definition bline_text (l : bline) : string := let '(t, _, _, _) := l in t.
Definition bline_bold (l : bline) : bool := let '(_, _, _, b) := l in b.

(** The span [t] starts more than [y_tol] below the end of the span [s]. *)
Definition spaced (y_tol : Q) (s t : Q * Q) : Prop :=
  (y_tol < fst t - snd s)%Q.

(** A cluster of words as the line the word clusterer makes of it. *)
Definition flush_cluster (c : list word * Q * Q) : yline :=
  let '(cur, y0, y1) := c in (flush_words cur, y0, y1).

(** A state of the character loop seen as a state of the word loop. *)
Definition flush_state (st : list (list word * Q * Q) * list word * Q * Q)
  : list yline * list word * Q * Q :=
  let '(lines, cur, y0, y1) := st in (map flush_cluster lines, cur, y0, y1).

(** What the clustering loop keeps: every cluster is well formed and each
    starts more than [y_tol] below the end of the one before. *)
Definition clusters_inv {A} (top : A -> Q) (y_tol : Q)
    (st : list (list A * Q * Q) * list A * Q * Q) : Prop :=
  Forall (cluster_ok top) (clusters_of st)
  /\ Sorted (spaced y_tol) (map cluster_span (clusters_of st)).

(** A line of the single-column walk that can be a name or an affiliation
    line: it is not bold and has text. *)
Definition plain_line (l : bline) : bool :=
  negb (bline_bold l) && PyStr.truthy (PyStr.strip (bline_text l)).

(** A line that is not bold and has text. *)
Definition unbold_text_line (l : bline) : bool :=
  negb (bline_bold l) && PyStr.truthy (bline_text l).

(** The paragraph made of a run of lines: their texts, the [y0] of the
    first and the [y1] of the last. *)
Definition para_of_group (g : list yline) : para :=
  (map yline_text g,
   fst (yline_span (hd ("", 0, 0)%Q g)),
   snd (yline_span (last g ("", 0, 0)%Q))).

(** A state of the segmentation loop against the runs of lines read so far:
    [groups] are the runs of the closed paragraphs and [curg] is the run of
    the open one. *)
Definition groups_rel (st : para_state) (groups : list (list yline))
    (curg : list yline) : Prop :=
  let '(paras, cur_lines, block_y0, block_y1, _) := st in
  paras = map para_of_group groups
  /\ Forall (fun g => g <> []) groups
  /\ cur_lines = map yline_text curg
  /\ (curg <> [] ->
      block_y0 = Some (fst (yline_span (hd ("", 0, 0)%Q curg)))
      /\ block_y1 = Some (snd (yline_span (last curg ("", 0, 0)%Q)))).

(** The gaps that exceed a threshold. *)
Definition gaps_above (thresh : Q) (gaps : list Q) : list Q :=
  filter (Qltb thresh) gaps.

(** A fragment starts with a character that is not white space. *)
Definition starts_unspaced (r : re) : bool :=
  match leading_lit r with
  | Some (String c _) => negb (PyStr.isspace c)
  | _ => false
  end.

(** A row of [single_column_bold_extract.py] against a record of
    [extract_pdf_data.py]: the same delegation, and the name line of the row
    is the line whose honorific and person the record holds. *)
Definition row_matches (row : SingleColumnBold.row) (r : Record_) : Prop :=
  SingleColumnBold.r_Delegation row = Delegation r
  /\ split_honorific_and_person (SingleColumnBold.r_Person_Name row)
     = (Honorific r, Person_Name r).

(** A row of [two_columns_file_extract.py] against a record of
    [extract_pdf_data.py]: the same honorific and person, and the same
    delegation, [None] standing for the empty string. *)
Definition file_row_matches (row : TwoColumnsFile.row_) (r : Record_) : Prop :=
  or_empty (TwoColumnsFile.f_Delegation row) = Delegation r
  /\ TwoColumnsFile.f_Honorific row = Honorific r
  /\ TwoColumnsFile.f_Person_Name row = Person_Name r.

(* ================================================================== *)
(** * Strings *)
(* ================================================================== *)

Lemma str_app_assoc (a b c : string) :
  ((a ++ b) ++ c)%string = (a ++ (b ++ c))%string.
Proof. induction a as [|x a IH]; simpl; [reflexivity|now rewrite IH]. Qed.

Lemma str_app_nil_r (a : string) : (a ++ "")%string = a.
Proof. induction a as [|x a IH]; simpl; [reflexivity|now rewrite IH]. Qed.

Lemma str_length_app (a b : string) :
  String.length (a ++ b) = String.length a + String.length b.
Proof. induction a as [|x a IH]; simpl; [reflexivity|now rewrite IH]. Qed.

Lemma all_chars_app p (a b : string) :
  PyStr.all_chars p (a ++ b) = PyStr.all_chars p a && PyStr.all_chars p b.
Proof.
  induction a as [|x a IH]; simpl; [reflexivity|].
  now rewrite IH, andb_assoc.
Qed.

Lemma all_chars_In p (s : string) :
  PyStr.all_chars p s = true <->
  forall c, In c (list_ascii_of_string s) -> p c = true.
Proof.
  induction s as [|x s IH]; simpl.
  - split; [intros _ c []|reflexivity].
  - rewrite andb_true_iff, IH. split.
    + intros [Hx Hs] c [<-|Hc]; auto.
    + intros H. split; [apply H; now left|intros c Hc; apply H; now right].
Qed.

Lemma truthy_false (s : string) : PyStr.truthy s = false <-> s = "".
Proof. destruct s; simpl; split; congruence. Qed.

Lemma truthy_true (s : string) : PyStr.truthy s = true <-> s <> "".
Proof. destruct s; simpl; split; congruence. Qed.

Lemma drop_app (w rest : string) : PyStr.drop (String.length w) (w ++ rest) = rest.
Proof. induction w as [|x w IH]; simpl; [now destruct rest|exact IH]. Qed.

Lemma substring_app (w rest : string) :
  String.substring 0 (String.length w) (w ++ rest) = w.
Proof.
  induction w as [|x w IH]; simpl; [now destruct rest|now rewrite IH].
Qed.

(* ================================================================== *)
(** * The matcher against the language of a pattern *)
(* ================================================================== *)

Section Matcher.

Context {A : Type}.
Implicit Types (k : string -> option A) (r : re) (s w : string).

Lemma lit_at_sound l s s' : lit_at l s = Some s' -> s = (l ++ s')%string.
Proof.
  revert s; induction l as [|a l IH]; intros [|b s]; simpl; try congruence.
  destruct (Ascii.eqb_spec a b) as [->|]; [|discriminate].
  intros H; now rewrite (IH _ H).
Qed.

Lemma lit_at_app l s : lit_at l (l ++ s) = Some s.
Proof.
  induction l as [|a l IH]; simpl; [reflexivity|].
  now rewrite Ascii.eqb_refl.
Qed.

Lemma ws_star_sound s k x :
  ws_star s k = Some x ->
  exists w rest, s = (w ++ rest)%string
                 /\ PyStr.all_chars PyStr.isspace w = true /\ k rest = Some x.
Proof.
  induction s as [|c s IH]; simpl.
  - intros H. now exists "", "".
  - destruct (PyStr.isspace c) eqn:Hc.
    + destruct (ws_star s k) as [y|] eqn:Hs.
      * intros [= ->]. destruct (IH eq_refl) as (w & rest & -> & Hw & Hk).
        exists (String c w), rest. simpl. now rewrite Hc, Hw.
      * intros H. now exists "", (String c s).
    + intros H. now exists "", (String c s).
Qed.

Lemma ws_star_complete w rest k :
  PyStr.all_chars PyStr.isspace w = true ->
  k rest <> None -> ws_star (w ++ rest) k <> None.
Proof.
  intros Hw Hk. induction w as [|c w IH]; simpl in *.
  - destruct rest as [|c r]; simpl; [exact Hk|].
    destruct (PyStr.isspace c); [|exact Hk].
    destruct (ws_star r k); [discriminate|exact Hk].
  - apply andb_true_iff in Hw as [Hc Hw]. rewrite Hc.
    specialize (IH Hw). destruct (ws_star (w ++ rest) k); congruence.
Qed.

(** Soundness: a successful run has matched a word of the language. *)
Lemma run_sound r : forall s k x,
  run r s k = Some x ->
  exists w rest, s = (w ++ rest)%string /\ matches r w /\ k rest = Some x.
Proof.
  induction r as [l| |r1 IH1 r2 IH2|r1 IH1 r2 IH2|r1 IH1]; intros s k x; simpl.
  - destruct (lit_at l s) as [s'|] eqn:Hl; [|discriminate].
    intros Hk. exists l, s'. split; [now apply lit_at_sound|].
    split; [constructor|exact Hk].
  - intros H. destruct (ws_star_sound _ _ _ H) as (w & rest & -> & Hw & Hk).
    exists w, rest. split; [reflexivity|]. split; [now constructor|exact Hk].
  - intros H. destruct (IH1 _ _ _ H) as (w1 & rest1 & -> & M1 & H2).
    destruct (IH2 _ _ _ H2) as (w2 & rest & -> & M2 & Hk).
    exists (w1 ++ w2)%string, rest. rewrite str_app_assoc.
    split; [reflexivity|]. split; [now constructor|exact Hk].
  - destruct (run r1 s k) as [y|] eqn:H1.
    + intros [= ->]. destruct (IH1 _ _ _ H1) as (w & rest & -> & M & Hk).
      exists w, rest. split; [reflexivity|]. split; [now apply m_alt_l|exact Hk].
    + intros H. destruct (IH2 _ _ _ H) as (w & rest & -> & M & Hk).
      exists w, rest. split; [reflexivity|]. split; [now apply m_alt_r|exact Hk].
  - destruct (run r1 s k) as [y|] eqn:H1.
    + intros [= ->]. destruct (IH1 _ _ _ H1) as (w & rest & -> & M & Hk).
      exists w, rest. split; [reflexivity|]. split; [now apply m_opt_some|exact Hk].
    + intros H. exists "", s. split; [reflexivity|]. split; [apply m_opt_none|exact H].
Qed.

(** Completeness: when a word of the language starts the text and the
    continuation accepts what follows it, the run does not fail. *)
Lemma run_complete r w : matches r w ->
  forall rest k, k rest <> None -> run r (w ++ rest) k <> None.
Proof.
  induction 1 as [l|w Hw|r1 r2 w1 w2 _ IH1 _ IH2|r1 r2 w _ IH|r1 r2 w _ IH
                 |r w _ IH|r]; intros rest k Hk; simpl.
  - now rewrite lit_at_app.
  - now apply ws_star_complete.
  - rewrite str_app_assoc. apply IH1. now apply IH2.
  - specialize (IH rest k Hk). destruct (run r1 (w ++ rest) k); congruence.
  - specialize (IH rest k Hk).
    destruct (run r1 (w ++ rest) k); [discriminate|exact IH].
  - specialize (IH rest k Hk). destruct (run r (w ++ rest) k); congruence.
  - destruct (run r rest k); [discriminate|exact Hk].
Qed.

End Matcher.

Lemma matches_alts rs w :
  rs <> [] -> (matches (alts rs) w <-> exists r, In r rs /\ matches r w).
Proof.
  induction rs as [|r rs IH]; [congruence|]. intros _.
  destruct rs as [|r' rs].
  - simpl. split; [intros H; exists r; auto|intros (r0 & [<-|[]] & H); exact H].
  - change (alts (r :: r' :: rs)) with (Alt r (alts (r' :: rs))).
    split.
    + intros H. inversion H; subst.
      * exists r. split; [now left|assumption].
      * apply IH in H3; [|discriminate]. destruct H3 as (r0 & Hin & Hm).
        exists r0. split; [now right|assumption].
    + intros (r0 & [<-|Hin] & Hm); [now apply m_alt_l|].
      apply m_alt_r, IH; [discriminate|]. now exists r0.
Qed.

(** [pattern.match] succeeds exactly on the lines that start with an
    honorific, and then reports the length of a matched fragment. *)
Lemma match_title_sound s n :
  match_ title_match_pattern s = Some n ->
  exists frag w rest,
    In frag title_fragments /\ matches frag w
    /\ s = (w ++ rest)%string /\ n = String.length w.
Proof.
  unfold match_. intros H.
  destruct (run_sound _ _ _ _ H) as (w & rest & Hs & M & Hk).
  apply matches_alts in M; [|discriminate]. destruct M as (frag & Hin & M).
  exists frag, w, rest. repeat split; try assumption.
  injection Hk as <-. rewrite Hs, str_length_app. lia.
Qed.

Lemma match_title_none_iff s :
  match_ title_match_pattern s = None <-> ~ has_honorific_prefix s.
Proof.
  split.
  - intros Hnone (frag & w & rest & Hin & M & ->).
    assert (Ma : matches title_match_pattern w).
    { apply matches_alts; [discriminate|]. now exists frag. }
    revert Hnone. unfold match_. now apply run_complete.
  - intros Hno. destruct (match_ title_match_pattern s) as [n|] eqn:H; [|reflexivity].
    exfalso. apply Hno. destruct (match_title_sound _ _ H) as (f & w & rest & ? & ? & ? & _).
    now exists f, w, rest.
Qed.

(* ================================================================== *)
(** * Honorific parser *)
(* ================================================================== *)

Lemma split_no_honorific line :
  PyStr.strip line = line -> ~ has_honorific_prefix line ->
  split_honorific_and_person line = ("", line).
Proof.
  intros Hs Hno. unfold split_honorific_and_person. rewrite Hs.
  apply match_title_none_iff in Hno. now rewrite Hno.
Qed.

(** On a match the honorific is the matched fragment, trimmed, and the
    person the rest of the line, trimmed. *)
Lemma split_with_honorific line :
  has_honorific_prefix (PyStr.strip line) ->
  exists frag w rest,
    In frag title_fragments /\ matches frag w
    /\ PyStr.strip line = (w ++ rest)%string
    /\ split_honorific_and_person line = (PyStr.strip w, PyStr.strip rest).
Proof.
  intros Hp. unfold split_honorific_and_person.
  destruct (match_ title_match_pattern (PyStr.strip line)) as [n|] eqn:Hm.
  - destruct (match_title_sound _ _ Hm) as (frag & w & rest & Hin & M & Hs & ->).
    exists frag, w, rest. repeat split; try assumption.
    now rewrite Hs, substring_app, drop_app.
  - now apply match_title_none_iff in Hm.
Qed.

(** C7. Honorific parsing: "Mr. John Smith" is split into the honorific
    "Mr." and the person "John Smith"; a trimmed line that starts with no
    fragment of the honorific list, as "John Smith", gives an empty
    honorific and the whole line as the person. *)
Theorem honorific_parsing :
  split_honorific_and_person "Mr. John Smith" = ("Mr.", "John Smith")
  /\ (~ has_honorific_prefix "John Smith"
      /\ split_honorific_and_person "John Smith" = ("", "John Smith"))
  /\ forall line,
       PyStr.strip line = line -> ~ has_honorific_prefix line ->
       split_honorific_and_person line = ("", line).
Proof.
  split; [reflexivity|]. split; [|exact split_no_honorific].
  split; [|reflexivity].
  apply match_title_none_iff. reflexivity.
Qed.

Lemma honorific_parsing_witness :
  PyStr.strip "Jane Roe" = "Jane Roe"
  /\ ~ has_honorific_prefix "Jane Roe"
  /\ split_honorific_and_person "Jane Roe" = ("", "Jane Roe").
Proof.
  assert (Hn : ~ has_honorific_prefix "Jane Roe").
  { apply match_title_none_iff. reflexivity. }
  split; [reflexivity|]. split; [exact Hn|].
  apply (proj2 (proj2 honorific_parsing) "Jane Roe"); [reflexivity|exact Hn].
Defined.

(* ================================================================== *)
(** * Header classifier *)
(* ================================================================== *)

Lemma header_char_iff c :
  header_char c = true <->
  PyStr.isupper c = true \/ c = " "%char \/ c = "/"%char.
Proof.
  unfold header_char. rewrite !orb_true_iff, !Ascii.eqb_eq. tauto.
Qed.

Lemma is_all_caps_header_iff text :
  is_all_caps_header text = true <->
  PyStr.strip text <> ""
  /\ forall c, In c (list_ascii_of_string (PyStr.strip text)) ->
               PyStr.isupper c = true \/ c = " "%char \/ c = "/"%char.
Proof.
  unfold is_all_caps_header.
  destruct text as [|a text].
  - simpl. split; [discriminate|intros [H _]; now elim H].
  - cbn [PyStr.truthy negb].
    rewrite andb_true_iff, truthy_true, all_chars_In.
    split; intros [Hne Hall]; (split; [exact Hne|]);
      intros c Hc; apply header_char_iff; auto.
Qed.

(** C4. A text is header-shaped exactly when, trimmed, it is not empty and
    holds only capitals, spaces and slashes; and the lone-line paragraph
    "SWITZERLAND / SUISSE / SUIZA" is stored as the header "SWITZERLAND". *)
Theorem header_classification :
  (forall text,
     is_all_caps_header text = true <->
     PyStr.strip text <> ""
     /\ forall c, In c (list_ascii_of_string (PyStr.strip text)) ->
                  PyStr.isupper c = true \/ c = " "%char \/ c = "/"%char)
  /\ (forall y0 y1,
        is_header_block ["SWITZERLAND / SUISSE / SUIZA"] = true
        /\ collect_headers [(["SWITZERLAND / SUISSE / SUIZA"], y0, y1)]
           = [(((y0 + y1) / 2)%Q, "SWITZERLAND")])
  /\ column_paras page_switzerland
     = [(["SWITZERLAND / SUISSE / SUIZA"], 10, 10)]%Q
  /\ page_headers page_switzerland = [((10 + 10) / 2, "SWITZERLAND")]%Q.
Proof.
  split; [exact is_all_caps_header_iff|].
  split; [intros y0 y1; split; reflexivity|].
  split; reflexivity.
Qed.

(* ================================================================== *)
(** * Single-column assembler *)
(* ================================================================== *)

(** A bold line with text sets the delegation, the text before the first
    slash, and gives no record. *)
Lemma singlecol_walk_bold d text y0 y1 rest :
  text <> "" ->
  singlecol_walk d ((text, y0, y1, true) :: rest)
  = singlecol_walk (Some (PyStr.strip (PyStr.split1_head "/" text))) rest.
Proof.
  intros Ht. apply truthy_true in Ht. cbn [singlecol_walk andb]. now rewrite Ht.
Qed.

(** A line without text, or met before any delegation, is skipped. *)
Lemma singlecol_walk_skip d text y0 y1 b rest :
  text = "" \/ (b = false /\ opt_truthy d = false) ->
  singlecol_walk d ((text, y0, y1, b) :: rest) = singlecol_walk d rest.
Proof.
  intros [->|[-> Hd]]; cbn [singlecol_walk].
  - cbn [PyStr.truthy]. now rewrite !andb_false_r.
  - now rewrite Hd.
Qed.

(** A plain line with text under a delegation is a name line: it is split
    into honorific and person, the lines after it that are neither bold nor
    blank are its affiliation, joined by spaces, and the walk goes on at the
    first bold or blank line. *)
Lemma singlecol_walk_person d text y0 y1 rest :
  opt_truthy d = true -> text <> "" ->
  singlecol_walk d ((text, y0, y1, false) :: rest)
  = mk_Record (or_empty d)
      (fst (split_honorific_and_person text))
      (snd (split_honorific_and_person text))
      (PyStr.strip (PyStr.join " " (fst (affiliation_span rest))))
    :: singlecol_walk d (snd (affiliation_span rest)).
Proof.
  intros Hd Ht. apply truthy_true in Ht.
  cbn [singlecol_walk andb]. rewrite Hd, Ht. cbn [andb].
  destruct (split_honorific_and_person text) as [honorific person].
  cbn [fst snd].
  match goal with
  | |- ?collect [] rest = _ =>
      enough (H : forall acc,
                 collect acc rest
                 = mk_Record (or_empty d) honorific person
                     (PyStr.strip
                        (PyStr.join " " (acc ++ fst (affiliation_span rest))))
                   :: singlecol_walk d (snd (affiliation_span rest)))
        by apply (H [])
  end.
  induction rest as [|[[[t z0] z1] b] rest IH]; intros acc.
  - cbn [affiliation_span fst snd]. now rewrite app_nil_r.
  - cbn [affiliation_span].
    destruct (negb b && PyStr.truthy (PyStr.strip t)) eqn:E.
    + rewrite IH. destruct (affiliation_span rest) as [aff rest'].
      cbn [fst snd]. now rewrite <- app_assoc.
    + cbn [fst snd]. now rewrite app_nil_r.
Qed.

(** C1. The bold line "BAHAMAS", the lines "Mr. John Doe" and "Ministry of
    Environment" and a blank line give the one record
    (BAHAMAS, Mr., John Doe, Ministry of Environment), wherever the lines
    stand on the page and whatever the weight of the blank line. *)
Theorem single_column_scenario :
  forall (a0 a1 b0 b1 c0 c1 d0 d1 : Q) (blank_bold : bool),
    singlecol_walk None
      [ ("BAHAMAS", a0, a1, true);
        ("Mr. John Doe", b0, b1, false);
        ("Ministry of Environment", c0, c1, false);
        ("", d0, d1, blank_bold) ]
    = [ mk_Record "BAHAMAS" "Mr." "John Doe" "Ministry of Environment" ].
Proof. intros. destruct blank_bold; reflexivity. Qed.

(** The same lines through [single_column_bold_extract.py], whose rows keep
    the name line whole. *)
Lemma bold_script_keeps_name_line :
  forall (a0 a1 b0 b1 c0 c1 d0 d1 : Q) (blank_bold : bool),
    SingleColumnBold.walk None
      [ ("BAHAMAS", a0, a1, true);
        ("Mr. John Doe", b0, b1, false);
        ("Ministry of Environment", c0, c1, false);
        ("", d0, d1, blank_bold) ]
    = [ SingleColumnBold.mk_row "BAHAMAS" "Mr. John Doe" "Ministry of Environment" ].
Proof. intros. destruct blank_bold; reflexivity. Qed.

(* ================================================================== *)
(** * Paragraph segmenter: the partition invariant *)
(* ================================================================== *)

Lemma nonempty_true {A} (l : list A) : nonempty l = true <-> l <> [].
Proof. destruct l; simpl; split; congruence. Qed.

Lemma nonempty_false {A} (l : list A) : nonempty l = false <-> l = [].
Proof. destruct l; simpl; split; congruence. Qed.

Lemma texts_of_paras_app ps qs :
  texts_of_paras (ps ++ qs) = texts_of_paras ps ++ texts_of_paras qs.
Proof. unfold texts_of_paras. now rewrite map_app, concat_app. Qed.

(** One turn of the loop closes at most the open paragraph, which is then
    not empty, and adds the text of the line to the open one. *)
Lemma para_step_texts thresh st item :
  Forall (fun p => para_lines p <> []) (st_paras st) ->
  let st' := para_step thresh st item in
  Forall (fun p => para_lines p <> []) (st_paras st')
  /\ st_cur st' <> []
  /\ texts_of_paras (st_paras st') ++ st_cur st'
     = (texts_of_paras (st_paras st) ++ st_cur st) ++ [yline_text (fst item)].
Proof.
  destruct st as [[[[paras cur] b0] b1] pm].
  destruct item as [[[txt y0] y1] mid].
  intros Hall. unfold para_step.
  destruct (match pm with Some p => Qltb thresh (mid - p) | None => false end
            && nonempty cur) eqn:Hc; cbn [st_paras st_cur fst yline_text].
  - apply andb_true_iff in Hc as [_ Hne]. apply nonempty_true in Hne.
    cbn [nonempty st_paras st_cur]. split; [|split].
    + apply Forall_app. split; [exact Hall|]. now constructor.
    + discriminate.
    + rewrite texts_of_paras_app. unfold texts_of_paras at 2. simpl.
      now rewrite app_nil_r.
  - split; [|split].
    + destruct (nonempty cur); exact Hall.
    + destruct (nonempty cur); cbn [st_cur]; now destruct cur.
    + destruct (nonempty cur); cbn [st_paras st_cur]; now rewrite app_assoc.
Qed.

Lemma para_loop_texts thresh items : forall st,
  Forall (fun p => para_lines p <> []) (st_paras st) ->
  let st' := fold_left (para_step thresh) items st in
  Forall (fun p => para_lines p <> []) (st_paras st')
  /\ texts_of_paras (st_paras st') ++ st_cur st'
     = (texts_of_paras (st_paras st) ++ st_cur st)
       ++ map (fun it => yline_text (fst it)) items.
Proof.
  induction items as [|item items IH]; intros st Hall; simpl.
  - split; [exact Hall|now rewrite app_nil_r].
  - destruct (para_step_texts thresh st item Hall) as (Hall' & _ & Htx).
    destruct (IH _ Hall') as (Hall'' & Htx'').
    split; [exact Hall''|].
    rewrite Htx'', Htx, <- !app_assoc. reflexivity.
Qed.

Lemma combine_mids_texts (lines : list yline) :
  map (fun it : yline * Q => yline_text (fst it)) (combine lines (mids_of lines))
  = map yline_text lines.
Proof.
  unfold mids_of. induction lines as [|l lines IH]; simpl; [reflexivity|].
  now rewrite IH.
Qed.

Lemma diffs_of_nil_inv (l0 : yline) lines :
  nonempty (diffs_of (mids_of (l0 :: lines))) = false -> lines = [].
Proof. destruct lines; [reflexivity|discriminate]. Qed.

(** The paragraphs are a partition of the lines into non-empty runs. *)
Lemma collect_paragraphs_partition lines para_factor :
  Forall (fun p => para_lines p <> [])
         (collect_paragraphs_with_y lines para_factor)
  /\ texts_of_paras (collect_paragraphs_with_y lines para_factor)
     = map yline_text lines.
Proof.
  unfold collect_paragraphs_with_y.
  destruct lines as [|l0 lines]; [split; [constructor|reflexivity]|].
  destruct (nonempty (diffs_of (mids_of (l0 :: lines)))) eqn:Hd; cbn [negb].
  - set (thresh := para_thresh (l0 :: lines) para_factor).
    unfold segment_at.
    pose proof (para_loop_texts thresh
                  (combine (l0 :: lines) (mids_of (l0 :: lines)))
                  ([], [], None, None, None) (Forall_nil _)) as H.
    cbv zeta in H.
    destruct (fold_left (para_step thresh)
                (combine (l0 :: lines) (mids_of (l0 :: lines)))
                ([], [], None, None, None)) as [[[[paras cur] b0] b1] pm].
    cbn [st_paras st_cur] in H. destruct H as (Hall & Htx).
    rewrite combine_mids_texts in Htx. cbn [texts_of_paras map List.concat app] in Htx.
    destruct (nonempty cur) eqn:Hcur.
    + split.
      * apply Forall_app. split; [exact Hall|].
        constructor; [|constructor]. now apply nonempty_true.
      * rewrite texts_of_paras_app. unfold texts_of_paras at 2. simpl.
        rewrite app_nil_r. exact Htx.
    + apply nonempty_false in Hcur. subst cur. rewrite app_nil_r in Htx.
      split; assumption.
  - apply diffs_of_nil_inv in Hd. subst lines.
    destruct l0 as [[t0 y0] y1]. split; [|reflexivity].
    constructor; [discriminate|constructor].
Qed.

Lemma length_concat_nonempty {A} (ls : list (list A)) :
  Forall (fun l => l <> []) ls -> List.length ls <= List.length (List.concat ls).
Proof.
  induction 1 as [|l ls Hl _ IH]; simpl; [lia|].
  rewrite length_app. destruct l; [congruence|simpl; lia].
Qed.


(* ================================================================== *)
(** * Paragraph segmenter: the reference spacing *)
(* ================================================================== *)

Section StableSort.

Context {A : Type} (lt : A -> A -> bool).
Hypothesis lt_asym : forall a b, lt a b = true -> lt b a = false.

(** [a] may stand before [b] in a sorted list: [b < a] does not hold. *)
Let le (a b : A) : Prop := lt b a = false.

Lemma insert_by_perm x l : Permutation (x :: l) (insert_by lt x l).
Proof.
  induction l as [|y l IH]; simpl; [reflexivity|].
  destruct (lt y x); [|reflexivity].
  rewrite perm_swap. now constructor.
Qed.

Lemma sorted_by_perm l : Permutation l (sorted_by lt l).
Proof.
  induction l as [|x l IH]; simpl; [constructor|].
  rewrite <- insert_by_perm. now constructor.
Qed.

Lemma sorted_by_length l : List.length (sorted_by lt l) = List.length l.
Proof. symmetry. apply Permutation_length, sorted_by_perm. Qed.

Lemma insert_by_sorted x l : Sorted le l -> Sorted le (insert_by lt x l).
Proof.
  induction 1 as [|y l Hs IH Hhd]; simpl; [repeat constructor|].
  destruct (lt y x) eqn:Hyx.
  - constructor; [exact IH|].
    destruct l as [|z l]; simpl.
    + constructor. unfold le. now apply lt_asym.
    + destruct (lt z x); constructor.
      * now inversion Hhd.
      * unfold le. now apply lt_asym.
  - constructor; [now constructor|]. constructor. exact Hyx.
Qed.

Lemma sorted_by_sorted l : Sorted le (sorted_by lt l).
Proof.
  induction l as [|x l IH]; simpl; [constructor|now apply insert_by_sorted].
Qed.

End StableSort.

Lemma Qltb_asym a b : Qltb a b = true -> Qltb b a = false.
Proof.
  unfold Qltb. rewrite negb_true_iff, negb_false_iff.
  intros H. apply Qle_bool_iff.
  destruct (Qlt_le_dec a b) as [Hlt|Hle]; [now apply Qlt_le_weak|].
  apply Qle_bool_iff in Hle. congruence.
Qed.

Lemma Qltb_false_le a b : Qltb b a = false <-> (a <= b)%Q.
Proof. unfold Qltb. now rewrite negb_false_iff, Qle_bool_iff. Qed.

Lemma Qltb_true_lt a b : Qltb a b = true <-> (a < b)%Q.
Proof.
  unfold Qltb. rewrite negb_true_iff. split.
  - intros H. apply Qnot_le_lt. intros Hle. apply Qle_bool_iff in Hle. congruence.
  - intros H. destruct (Qle_bool b a) eqn:E; [|reflexivity].
    apply Qle_bool_iff in E. now apply Qlt_not_le in H.
Qed.

(** [sorted(diffs)] is [diffs] in ascending order. *)
Lemma sorted_gaps_ascending diffs :
  Permutation diffs (sorted_by Qltb diffs) /\ Sorted Qle (sorted_by Qltb diffs).
Proof.
  split; [apply sorted_by_perm|].
  pose proof (sorted_by_sorted Qltb Qltb_asym diffs) as H.
  induction H as [|y l Hs IH Hhd]; constructor; [exact IH|].
  destruct Hhd; constructor. now apply Qltb_false_le.
Qed.

Lemma diffs_of_length mids : List.length (diffs_of mids) = List.length mids - 1.
Proof.
  induction mids as [|a [|b tl] IH]; try reflexivity.
  change (diffs_of (a :: b :: tl)) with ((b - a)%Q :: diffs_of (b :: tl)).
  cbn [List.length] in *. rewrite IH. lia.
Qed.

(** The reference spacing is the element of index [len(diffs) // 2] of the
    sorted gaps, for any non-empty sequence of gaps. *)
Lemma median_gap_index diffs :
  diffs <> [] ->
  nth_error (sorted_by Qltb diffs) (List.length diffs / 2)
  = Some (median_gap_of diffs).
Proof.
  intros Hne. unfold median_gap_of.
  apply nth_error_nth'. rewrite sorted_by_length.
  destruct diffs; [congruence|]. apply Nat.div_lt; simpl; lia.
Qed.

Lemma collect_paragraphs_threshold lines para_factor :
  diffs_of (mids_of lines) <> [] ->
  collect_paragraphs_with_y lines para_factor
  = segment_at (median_gap_of (diffs_of (mids_of lines)) * para_factor)%Q lines.
Proof.
  intros Hd. unfold collect_paragraphs_with_y.
  destruct lines as [|l0 lines]; [now elim Hd|].
  apply nonempty_true in Hd. rewrite Hd. reflexivity.
Qed.


(* ================================================================== *)
(** * Trimming *)
(* ================================================================== *)

Lemma rstrip_idem s : PyStr.rstrip (PyStr.rstrip s) = PyStr.rstrip s.
Proof.
  induction s as [|c s IH]; [reflexivity|].
  cbn [PyStr.rstrip]. destruct (PyStr.rstrip s) as [|c' r'] eqn:Hr.
  - destruct (PyStr.isspace c) eqn:Hc; [reflexivity|].
    cbn [PyStr.rstrip]. now rewrite Hc.
  - cbn [PyStr.rstrip] in *. now rewrite IH.
Qed.

Lemma lstrip_no_leading s : no_leading_space (PyStr.lstrip s).
Proof.
  induction s as [|c s IH]; simpl; [exact I|].
  destruct (PyStr.isspace c) eqn:Hc; [exact IH|exact Hc].
Qed.

Lemma lstrip_fixed s : no_leading_space s -> PyStr.lstrip s = s.
Proof. destruct s as [|c s]; simpl; [reflexivity|now intros ->]. Qed.

Lemma rstrip_no_leading s : no_leading_space s -> no_leading_space (PyStr.rstrip s).
Proof.
  destruct s as [|c s]; simpl; [exact id|]. intros Hc.
  destruct (PyStr.rstrip s); [now rewrite Hc|exact Hc].
Qed.

Lemma strip_idem s : PyStr.strip (PyStr.strip s) = PyStr.strip s.
Proof.
  unfold PyStr.strip.
  rewrite (lstrip_fixed (PyStr.rstrip (PyStr.lstrip s))).
  - apply rstrip_idem.
  - apply rstrip_no_leading, lstrip_no_leading.
Qed.

(* ================================================================== *)
(** * Honorifics of header-shaped texts *)
(* ================================================================== *)

Lemma matches_leading frag w l :
  matches frag w -> leading_lit frag = Some l ->
  exists w', w = (l ++ w')%string.
Proof.
  intros M. destruct frag as [l0| |r1 r2| |]; try discriminate.
  - intros [= <-]. inversion M; subst. exists "". now rewrite str_app_nil_r.
  - destruct r1 as [l0| | | |]; try discriminate. intros [= <-].
    inversion M as [| |? ? w1 w2 M1 M2| | | |]; subst.
    inversion M1; subst. now exists w2.
Qed.

Lemma title_fragments_unfit :
  forallb unfit_for_header title_fragments = true.
Proof. reflexivity. Qed.

Lemma startswith_true l s :
  startswith l s = true -> exists rest, s = (l ++ rest)%string.
Proof.
  unfold startswith. destruct (lit_at l s) as [rest|] eqn:H; [|discriminate].
  intros _. exists rest. now apply lit_at_sound.
Qed.

(** On a text of capitals, spaces and slashes the pattern matches only the
    fragment [M\ ], and so only two characters. *)
Lemma header_shaped_match s :
  PyStr.all_chars header_char s = true ->
  match_ title_match_pattern s = if startswith "M " s then Some 2 else None.
Proof.
  intros Hs. destruct (match_ title_match_pattern s) as [n|] eqn:Hm.
  - destruct (match_title_sound _ _ Hm) as (frag & w & rest & Hin & M & -> & ->).
    pose proof title_fragments_unfit as Hu.
    rewrite forallb_forall in Hu. specialize (Hu _ Hin).
    unfold unfit_for_header in Hu.
    destruct (leading_lit frag) as [[|a [|b l]]|] eqn:Hl; try discriminate.
    destruct (matches_leading _ _ _ M Hl) as (w' & ->).
    cbn in Hs. apply andb_true_iff in Hs as [_ Hs].
    apply andb_true_iff in Hs as [Hb _]. rewrite Hb in Hu. cbn in Hu.
    destruct frag as [l0| | | |]; try discriminate.
    apply String.eqb_eq in Hu. subst l0. cbn in Hl.
    injection Hl as <- <- <-. cbn in M.
    inversion M as [? Hw| | | | | |]. subst w'. reflexivity.
  - destruct (startswith "M " s) eqn:Hp; [|reflexivity].
    apply startswith_true in Hp as (rest & ->).
    apply match_title_none_iff in Hm. exfalso. apply Hm.
    exists (Lit "M "), "M ", rest. split; [|split; [constructor|reflexivity]].
    unfold title_fragments. simpl. tauto.
Qed.

(** The honorific parser on a header-shaped text. *)
Lemma split_header_shaped t :
  is_all_caps_header t = true ->
  let s := PyStr.strip t in
  split_honorific_and_person s
  = if startswith "M " s then ("M", PyStr.strip (PyStr.drop 2 s)) else ("", s).
Proof.
  intros Ht s. unfold is_all_caps_header in Ht.
  destruct (negb (PyStr.truthy t)); [discriminate|].
  apply andb_true_iff in Ht as [_ Hall]. fold s in Hall.
  unfold split_honorific_and_person. subst s. rewrite strip_idem.
  rewrite (header_shaped_match _ Hall).
  destruct (startswith "M " (PyStr.strip t)) eqn:Hp; [|reflexivity].
  apply startswith_true in Hp as (rest & ->).
  pose proof (substring_app "M " rest) as E. cbn [String.length] in E.
  rewrite E. reflexivity.
Qed.

(* ================================================================== *)
(** * Two-column assembler *)
(* ================================================================== *)

Lemma record_of_block_fields headers blk y0 y1 :
  record_of_block headers (blk, y0, y1)
  = mk_Record
      (or_empty (header_for_mid headers ((y0 + y1) / 2)%Q))
      (fst (split_honorific_and_person (PyStr.strip (hd "" blk))))
      (snd (split_honorific_and_person (PyStr.strip (hd "" blk))))
      (PyStr.strip (PyStr.join " " (map PyStr.strip (tl blk)))).
Proof.
  unfold record_of_block.
  now destruct (split_honorific_and_person (PyStr.strip (hd "" blk))).
Qed.

(** The loop over a column emits the record of every paragraph that is not
    suppressed, in order, when no paragraph is empty. *)
Lemma column_records_filter headers paras :
  Forall (fun p => para_lines p <> []) paras ->
  column_records headers paras
  = map (record_of_block headers) (filter (fun p => negb (suppressed p)) paras).
Proof.
  induction 1 as [|[[blk y0] y1] paras Hne _ IH]; [reflexivity|].
  cbn [column_records filter]. unfold suppressed at 1. cbn [para_lines fst].
  destruct (is_header_block blk); cbn [negb]; [exact IH|].
  cbn in Hne. apply nonempty_true in Hne. rewrite Hne. cbn [negb map].
  now rewrite IH.
Qed.

Lemma column_paras_nonempty col_words :
  Forall (fun p => para_lines p <> []) (column_paras col_words).
Proof. apply collect_paragraphs_partition. Qed.

Lemma twocol_records_columns words x0_thresh :
  _twocol_records_from_words words x0_thresh
  = column_records (page_headers words)
      (column_paras (left_words words x0_thresh))
    ++ column_records (page_headers words)
         (column_paras (right_words words x0_thresh)).
Proof.
  unfold _twocol_records_from_words. cbn [flat_map]. now rewrite app_nil_r.
Qed.

(** A paragraph of a column that is not suppressed has its record among
    the records of the page. *)
Lemma twocol_record_emitted words x0_thresh col p :
  In col (page_columns words x0_thresh) ->
  In p (column_paras col) -> suppressed p = false ->
  In (record_of_block (page_headers words) p)
     (_twocol_records_from_words words x0_thresh).
Proof.
  intros Hcol Hp Hs. unfold _twocol_records_from_words.
  apply in_flat_map. exists col. split; [exact Hcol|].
  rewrite column_records_filter by apply column_paras_nonempty.
  apply in_map, filter_In. split; [exact Hp|now rewrite Hs].
Qed.

(** No header at or above a midpoint: the scan of the sorted headers keeps
    [None]. *)
Lemma header_for_mid_above headers mid :
  (forall h, In h headers -> (mid < fst h)%Q) ->
  header_for_mid headers mid = None.
Proof.
  unfold header_for_mid. destruct headers as [|[m name] tl]; [reflexivity|].
  intros H. cbn [header_scan].
  destruct (Qle_bool m mid) eqn:E; [|reflexivity].
  apply Qle_bool_iff in E. specialize (H (m, name) (or_introl eq_refl)).
  now apply Qlt_not_le in H.
Qed.

(** C3. A column paragraph that is not a header and whose midpoint lies
    strictly above the midpoint of every header of the page, in particular on
    a page without headers, still gives a record, and the delegation of the
    record is the empty string. *)
Theorem unresolved_delegation :
  forall (words : list word) (x0_thresh : Q) (col : list word) (p : para),
    In col (page_columns words x0_thresh) ->
    In p (column_paras col) ->
    suppressed p = false ->
    (forall h, In h (page_headers words) -> (para_mid p < fst h)%Q) ->
    In (record_of_block (page_headers words) p)
       (_twocol_records_from_words words x0_thresh)
    /\ Delegation (record_of_block (page_headers words) p) = "".
Proof.
  intros words thr col p Hcol Hp Hs Hh.
  split; [now apply (twocol_record_emitted words thr col)|].
  destruct p as [[blk y0] y1]. rewrite record_of_block_fields. cbn [Delegation].
  change (para_mid (blk, y0, y1)) with ((y0 + y1) / 2)%Q in Hh.
  now rewrite (header_for_mid_above _ _ Hh).
Qed.

Lemma unresolved_delegation_witness :
  let p : para := (["Jane Roe"; "Dept."; "Unit"], 10, 34)%Q in
  page_headers page_with_preamble = [((100 + 100) / 2, "ARGENTINA")]%Q
  /\ In (mk_Record "" "" "Jane Roe" "Dept. Unit")
        (_twocol_records_from_words page_with_preamble 260)
  /\ Delegation (record_of_block (page_headers page_with_preamble) p) = "".
Proof.
  intros p.
  assert (Hcol : In (left_words page_with_preamble 260)
                    (page_columns page_with_preamble 260)) by (now left).
  assert (Hp : In p (column_paras (left_words page_with_preamble 260)))
    by (now left).
  assert (Hs : suppressed p = false) by reflexivity.
  assert (Hh : forall h, In h (page_headers page_with_preamble) ->
                         (para_mid p < fst h)%Q).
  { intros h [<-|[]]. reflexivity. }
  split; [reflexivity|].
  exact (unresolved_delegation page_with_preamble 260 _ p Hcol Hp Hs Hh).
Defined.

(** What the record of a block of two or more lines holds when the first
    line is header-shaped. *)
Lemma record_of_header_shaped_block headers blk y0 y1 :
  is_all_caps_header (hd "" blk) = true ->
  let s := PyStr.strip (hd "" blk) in
  let r := record_of_block headers (blk, y0, y1) in
  Delegation r = or_empty (header_for_mid headers ((y0 + y1) / 2)%Q)
  /\ (startswith "M " s = false -> Honorific r = "" /\ Person_Name r = s)
  /\ (startswith "M " s = true ->
      Honorific r = "M" /\ Person_Name r = PyStr.strip (PyStr.drop 2 s)).
Proof.
  intros Hh s r. subst r. rewrite record_of_block_fields.
  cbn [Delegation Honorific Person_Name]. fold s.
  pose proof (split_header_shaped _ Hh) as E. cbv zeta in E. fold s in E.
  rewrite E. split; [reflexivity|].
  split; intros ->; split; reflexivity.
Qed.

(** C10, as amended. In a column only the paragraphs of one header-shaped
    line are suppressed: each other paragraph gives a record, in order.  For a
    paragraph of two or more lines with a header-shaped first line the record
    takes its delegation from the page headers, not from that line; the line,
    trimmed, goes through the honorific parser, and is the person name with
    an empty honorific unless it starts with "M ", the one fragment a
    header-shaped text can match, which is then split off as the
    honorific. *)
Theorem header_shaped_first_line :
  forall (words : list word) (x0_thresh : Q) (col : list word),
    In col (page_columns words x0_thresh) ->
    let headers := page_headers words in
    let paras := column_paras col in
    column_records headers paras
    = map (record_of_block headers)
          (filter (fun p => negb (suppressed p)) paras)
    /\ forall p,
         In p paras -> 2 <= List.length (para_lines p) ->
         let r := record_of_block headers p in
         let s := PyStr.strip (hd "" (para_lines p)) in
         suppressed p = false
         /\ In r (_twocol_records_from_words words x0_thresh)
         /\ (is_all_caps_header (hd "" (para_lines p)) = true ->
             Delegation r = or_empty (header_for_mid headers (para_mid p))
             /\ (startswith "M " s = false ->
                 Honorific r = "" /\ Person_Name r = s)
             /\ (startswith "M " s = true ->
                 Honorific r = "M"
                 /\ Person_Name r = PyStr.strip (PyStr.drop 2 s))).
Proof.
  intros words thr col Hcol headers paras.
  split; [apply column_records_filter, column_paras_nonempty|].
  intros [[blk y0] y1] Hp Hlen r s.
  assert (Hs : suppressed (blk, y0, y1) = false).
  { unfold suppressed. cbn [para_lines fst] in *.
    destruct blk as [|a [|b blk]]; simpl in Hlen; try lia; reflexivity. }
  split; [exact Hs|].
  split; [now apply (twocol_record_emitted words thr col)|].
  intros Hh. now apply record_of_header_shaped_block.
Qed.

Lemma header_shaped_first_line_witness :
  let p : para := (["M SMITH"; "Dept."], 10, 22)%Q in
  let r := record_of_block (page_headers page_m_smith) p in
  In p (column_paras (left_words page_m_smith 260))
  /\ is_all_caps_header "M SMITH" = true
  /\ In r (_twocol_records_from_words page_m_smith 260)
  /\ Honorific r = "M" /\ Person_Name r = "SMITH".
Proof.
  intros p r.
  assert (Hcol : In (left_words page_m_smith 260)
                    (page_columns page_m_smith 260)) by (now left).
  assert (Hp : In p (column_paras (left_words page_m_smith 260))) by (now left).
  assert (Hlen : 2 <= List.length (para_lines p)) by (simpl; lia).
  destruct (proj2 (header_shaped_first_line page_m_smith 260 _ Hcol) p Hp Hlen)
    as (_ & Hin & Hrec).
  destruct (Hrec eq_refl) as (_ & _ & HM).
  split; [exact Hp|]. split; [reflexivity|]. split; [exact Hin|].
  exact (HM eq_refl).
Defined.

(** C10, as stated, fails on the block "M SMITH" / "Dept.": the first line is
    header-shaped, the block gives a record, and the person name of the
    record is "SMITH", not the header-shaped text. *)
Lemma header_shaped_first_line_counterexample :
  In (["M SMITH"; "Dept."], 10, 22)%Q
     (column_paras (left_words page_m_smith 260))
  /\ is_all_caps_header "M SMITH" = true
  /\ _twocol_records_from_words page_m_smith 260
     = [ mk_Record "" "M" "SMITH" "Dept." ]
  /\ ~ (exists r, In r (_twocol_records_from_words page_m_smith 260)
                  /\ Person_Name r = "M SMITH").
Proof.
  split; [now left|]. split; [reflexivity|]. split; [reflexivity|].
  intros (r & [<-|[]] & H). discriminate H.
Qed.

(* ================================================================== *)
(** * Layout detector *)
(* ================================================================== *)

(** Every token of a page is counted on one side: [total] is the number of
    tokens of the page. *)
Lemma count_left_right words x0_thresh :
  count_left words x0_thresh + count_right words x0_thresh = List.length words.
Proof.
  unfold count_left, count_right, Qltb.
  induction words as [|w words IH]; [reflexivity|].
  cbn [filter]. destruct (Qle_bool x0_thresh (w_x0 w)); cbn [negb List.length]; lia.
Qed.

Lemma share_ge_quarter_iff n total :
  0 < total -> (share_ge_quarter n total = true <-> total <= 4 * n).
Proof.
  intros Ht. unfold share_ge_quarter. rewrite Qle_bool_iff.
  set (a := inject_Z (Z.of_nat n)). set (c := inject_Z (Z.of_nat total)).
  assert (Hc : (0 < c)%Q).
  { subst c. unfold Qlt. simpl. lia. }
  assert (Hc' : ~ (c == 0)%Q).
  { intros E. rewrite E in Hc. now apply Qlt_irrefl in Hc. }
  rewrite <- (Qmult_le_r _ _ c Hc).
  assert (E : (a / c * c == a)%Q).
  { rewrite Qmult_comm. now apply Qmult_div_r. }
  rewrite E. subst a c. unfold Qle, Qmult, inject_Z. cbn [Qnum Qden].
  change (Z.pos (4 * 1)) with 4%Z. lia.
Qed.

(** The test of the loop on a page with tokens is the qualifying split. *)
Lemma split_test_iff words x0_thresh :
  let left := count_left words x0_thresh in
  let right := count_right words x0_thresh in
  words <> [] ->
  (share_ge_quarter left (left + right) && share_ge_quarter right (left + right)
   = true <-> qualifying_split words x0_thresh).
Proof.
  intros left right Hne. unfold qualifying_split. fold left right.
  pose proof (count_left_right words x0_thresh) as Hsum. fold left right in Hsum.
  assert (Hpos : 0 < List.length words) by (destruct words; simpl; [congruence|lia]).
  rewrite andb_true_iff, !share_ge_quarter_iff by lia. rewrite Hsum. tauto.
Qed.

Lemma detect_loop_two words tl x0_thresh :
  qualifying_split words x0_thresh ->
  detect_loop (Returns words :: tl) x0_thresh = Returns "two".
Proof.
  intros Hq. assert (Hne : words <> []).
  { destruct Hq as (Hpos & _). destruct words; simpl in Hpos; [lia|congruence]. }
  cbn [detect_loop]. apply nonempty_true in Hne as Hne'. rewrite Hne'. cbn [negb].
  rewrite count_left_right.
  destruct (List.length words =? 0)%nat eqn:E.
  { apply Nat.eqb_eq in E. destruct Hq as (Hpos & _). lia. }
  pose proof (proj2 (split_test_iff words x0_thresh Hne) Hq) as Ht.
  cbv zeta in Ht. rewrite count_left_right in Ht. now rewrite Ht.
Qed.

Lemma detect_loop_next words tl x0_thresh :
  ~ qualifying_split words x0_thresh ->
  detect_loop (Returns words :: tl) x0_thresh = detect_loop tl x0_thresh.
Proof.
  intros Hq. cbn [detect_loop].
  destruct (nonempty words) eqn:Hne; cbn [negb]; [|reflexivity].
  apply nonempty_true in Hne. rewrite count_left_right.
  destruct (List.length words =? 0)%nat; [reflexivity|].
  pose proof (split_test_iff words x0_thresh Hne) as Ht.
  cbv zeta in Ht. rewrite count_left_right in Ht.
  destruct (share_ge_quarter (count_left words x0_thresh) (List.length words)
            && share_ge_quarter (count_right words x0_thresh) (List.length words));
    [|reflexivity].
  elim Hq. now apply Ht.
Qed.

Lemma detect_loop_prefix pre tl x0_thresh :
  Forall (fun p => ~ qualifying_split p x0_thresh) pre ->
  detect_loop (map Returns pre ++ tl) x0_thresh = detect_loop tl x0_thresh.
Proof.
  induction 1 as [|p pre Hp _ IH]; [reflexivity|].
  cbn [map app]. now rewrite detect_loop_next.
Qed.

Lemma firstn_two_prefix {A} (pre : list A) (x : A) rest :
  List.length pre < 2 ->
  exists rest', firstn 2 (pre ++ x :: rest) = pre ++ x :: rest'.
Proof.
  intros Hlen. destruct pre as [|a [|b pre]]; simpl in *; try lia; eauto.
Qed.

(** The detector answers "two" at the first sampled page with a qualifying
    split, whatever follows that page. *)
Lemma detect_two pre words rest x0_thresh :
  List.length pre < 2 ->
  Forall (fun p => ~ qualifying_split p x0_thresh) pre ->
  qualifying_split words x0_thresh ->
  detect_layout_quick (Returns (map Returns pre ++ Returns words :: rest)) x0_thresh
  = "two".
Proof.
  intros Hlen Hpre Hq. unfold detect_layout_quick.
  destruct (firstn_two_prefix (map Returns pre) (Returns words) rest) as (rest' & ->).
  { now rewrite length_map. }
  rewrite detect_loop_prefix by assumption. now rewrite detect_loop_two.
Qed.

Lemma detect_one pages x0_thresh :
  (forall p, In p (firstn 2 pages) -> ~ qualifying_split p x0_thresh) ->
  detect_layout_quick (Returns (map Returns pages)) x0_thresh = "one".
Proof.
  intros H. unfold detect_layout_quick. rewrite firstn_map.
  rewrite <- (app_nil_r (map Returns (firstn 2 pages))).
  rewrite detect_loop_prefix; [reflexivity|]. now apply Forall_forall.
Qed.

(** C5. The detector answers "two" at the first of the two sampled pages
    whose tokens left of the threshold and at or right of it are each at
    least a quarter of the page's tokens, and looks no further; it answers
    "one" when neither sampled page has such a split.  So a page split 40 to
    35 gives "two", and a page split 95 to 5, with no qualifying page after
    it, gives "one". *)
Theorem layout_detection_rule :
  forall x0_thresh : Q,
    (forall pre words rest,
        List.length pre < 2 ->
        Forall (fun p => ~ qualifying_split p x0_thresh) pre ->
        qualifying_split words x0_thresh ->
        detect_layout_quick
          (Returns (map Returns pre ++ Returns words :: rest)) x0_thresh = "two")
    /\ (forall pages,
          (forall p, In p (firstn 2 pages) -> ~ qualifying_split p x0_thresh) ->
          detect_layout_quick (Returns (map Returns pages)) x0_thresh = "one")
    /\ (forall words k rest,
          0 < k ->
          count_left words x0_thresh = 40 * k ->
          count_right words x0_thresh = 35 * k ->
          detect_layout_quick (Returns (Returns words :: rest)) x0_thresh = "two")
    /\ (forall words k rest,
          0 < k ->
          count_left words x0_thresh = 95 * k ->
          count_right words x0_thresh = 5 * k ->
          (forall p, In p (firstn 1 rest) -> ~ qualifying_split p x0_thresh) ->
          detect_layout_quick (Returns (map Returns (words :: rest))) x0_thresh
          = "one").
Proof.
  intros thr. split; [|split; [|split]].
  - intros pre words rest. apply detect_two.
  - intros pages. apply detect_one.
  - intros words k rest Hk Hl Hr.
    apply (detect_two [] words rest thr); [simpl; lia|constructor|].
    pose proof (count_left_right words thr) as Hsum.
    unfold qualifying_split. lia.
  - intros words k rest Hk Hl Hr Hrest. apply detect_one.
    intros p [<-|Hp].
    + pose proof (count_left_right words thr) as Hsum.
      unfold qualifying_split. lia.
    + now apply Hrest.
Qed.

Lemma layout_detection_rule_witness :
  qualifying_split page_two_sides 260
  /\ detect_layout_quick (Returns [Returns []; Returns page_two_sides]) 260 = "two".
Proof.
  assert (Hq : qualifying_split page_two_sides 260).
  { unfold qualifying_split. simpl. lia. }
  assert (Hn : ~ qualifying_split [] 260).
  { unfold qualifying_split. simpl. lia. }
  split; [exact Hq|].
  apply (proj1 (layout_detection_rule 260) [[]] page_two_sides []);
    [simpl; lia|now constructor|exact Hq].
Defined.

(** When reading a sampled page fails before a qualifying split is found,
    the detector answers "one" without a look at the pages after it. *)
Lemma detect_failure pre e rest x0_thresh :
  List.length pre < 2 ->
  Forall (fun p => ~ qualifying_split p x0_thresh) pre ->
  detect_layout_quick (Returns (map Returns pre ++ Raises e :: rest)) x0_thresh
  = "one".
Proof.
  intros Hlen Hpre. unfold detect_layout_quick.
  destruct (firstn_two_prefix (map Returns pre) (Raises e) rest) as (rest' & ->).
  { now rewrite length_map. }
  now rewrite detect_loop_prefix by assumption.
Qed.

(** C6, as amended. A failure, of the opening of the document or of the
    reading of a sampled page before a qualifying split is found, makes the
    detector answer "one" at once: the pages after the failing one are not
    inspected. *)
Theorem detection_failure_defaults_to_one :
  forall x0_thresh : Q,
    (forall e, detect_layout_quick (Raises e) x0_thresh = "one")
    /\ (forall pre e rest,
          List.length pre < 2 ->
          Forall (fun p => ~ qualifying_split p x0_thresh) pre ->
          detect_layout_quick
            (Returns (map Returns pre ++ Raises e :: rest)) x0_thresh = "one").
Proof.
  intros thr. split; [reflexivity|]. intros pre e rest. apply detect_failure.
Qed.

Lemma detection_failure_defaults_to_one_witness :
  ~ qualifying_split [] 260
  /\ detect_layout_quick
       (Returns [Returns []; Raises "PDFSyntaxError"; Returns page_two_sides]) 260
     = "one".
Proof.
  assert (Hn : ~ qualifying_split [] 260).
  { unfold qualifying_split. simpl. lia. }
  split; [exact Hn|].
  apply (proj2 (detection_failure_defaults_to_one 260) [[]]);
    [simpl; lia|now constructor].
Defined.

(** C6, as stated, fails on a document whose first page cannot be read and
    whose second page has a qualifying split: the answer is "one", not
    "two", though the second page could be read. *)
Lemma detection_failure_recovery_counterexample :
  qualifying_split page_two_sides 260
  /\ detect_layout_quick (Returns [Returns page_two_sides]) 260 = "two"
  /\ detect_layout_quick
       (Returns [Raises "PDFSyntaxError"; Returns page_two_sides]) 260 = "one"
  /\ detect_layout_quick
       (Returns [Raises "PDFSyntaxError"; Returns page_two_sides]) 260 <> "two".
Proof.
  split; [unfold qualifying_split; simpl; lia|].
  split; [reflexivity|]. split; [reflexivity|discriminate].
Qed.

(* ================================================================== *)
(** * Pages without tokens *)
(* ================================================================== *)

(** In [extract_pdf_data.py] a page without tokens gives no line, no
    paragraph and no record, and the pages after it are processed. *)
Lemma empty_page_skipped :
  (forall y_tol, group_chars_to_lines [] y_tol = [])
  /\ (forall y_tol, group_words_to_lines_with_y [] y_tol = [])
  /\ (forall para_factor, collect_paragraphs_with_y [] para_factor = [])
  /\ singlecol_page [] = []
  /\ (forall pre post,
        extract_singlecol_textpdf (pre ++ [] :: post)
        = extract_singlecol_textpdf pre ++ extract_singlecol_textpdf post)
  /\ (forall x0_thresh pre post,
        extract_twocol_textpdf (pre ++ [] :: post) x0_thresh
        = extract_twocol_textpdf pre x0_thresh
          ++ extract_twocol_textpdf post x0_thresh).
Proof.
  repeat split; try reflexivity.
  - intros pre post. unfold extract_singlecol_textpdf.
    now rewrite flat_map_app.
  - intros thr pre post. unfold extract_twocol_textpdf.
    now rewrite flat_map_app.
Qed.

Lemma bold_script_only_index_error chars y_tol e :
  SingleColumnBold.group_chars_to_lines chars y_tol = Raises e ->
  e = "IndexError".
Proof.
  unfold SingleColumnBold.group_chars_to_lines.
  destruct (sorted_by char_key_lt chars) as [|c0 rest]; [congruence|].
  destruct (fold_left _ _ _) as [[[? ?] ?] ?]. discriminate.
Qed.

Lemma bold_script_pages_raise pre post : forall records,
  SingleColumnBold.extract_pages records (pre ++ [] :: post)
  = Raises "IndexError".
Proof.
  induction pre as [|chars pre IH]; intros records; [reflexivity|].
  cbn [app SingleColumnBold.extract_pages].
  destruct (SingleColumnBold.group_chars_to_lines chars 3) as [lines|e] eqn:E.
  - apply IH.
  - now rewrite (bold_script_only_index_error _ _ _ E).
Qed.

(** C8, on [single_column_bold_extract.py]. A page without characters makes
    the line clusterer of this script raise [IndexError], which ends the
    extraction of the document, wherever the page stands in it. *)
Theorem empty_page_bold_script_raises :
  (forall y_tol,
      SingleColumnBold.group_chars_to_lines [] y_tol = Raises "IndexError")
  /\ (forall pre post,
        SingleColumnBold.extract_delegation_records (pre ++ [] :: post)
        = Raises "IndexError").
Proof.
  split; [reflexivity|]. intros pre post. apply bold_script_pages_raise.
Qed.

(* ================================================================== *)
(** * two_columns_file_extract.py segments as extract_pdf_data.py does *)
(* ================================================================== *)

Lemma para_step_lift thresh st item :
  bounds_set st ->
  TwoColumnsFile.para_step thresh (lift_state st) item
  = lift_state (para_step thresh st item)
  /\ bounds_set (para_step thresh st item).
Proof.
  destruct st as [[[[paras cur] b0] b1] pm].
  destruct item as [[[txt y0] y1] mid].
  unfold bounds_set, lift_state, TwoColumnsFile.para_step, para_step.
  intros Hb.
  destruct (match pm with Some p => Qltb thresh (mid - p) | None => false end
            && nonempty cur) eqn:Hc.
  - apply andb_true_iff in Hc as [_ Hne]. apply nonempty_true in Hne.
    destruct (Hb Hne) as (H0 & H1).
    destruct b0 as [v0|]; [|congruence]. destruct b1 as [v1|]; [|congruence].
    cbn [nonempty if_not_none]. split.
    + now rewrite map_app.
    + intros _. split; discriminate.
  - split; [reflexivity|].
    destruct (nonempty cur) eqn:Hne.
    + apply nonempty_true in Hne. intros _. split; [apply (Hb Hne)|discriminate].
    + intros _. split; discriminate.
Qed.

Lemma para_loop_lift thresh items : forall st,
  bounds_set st ->
  fold_left (TwoColumnsFile.para_step thresh) items (lift_state st)
  = lift_state (fold_left (para_step thresh) items st)
  /\ bounds_set (fold_left (para_step thresh) items st).
Proof.
  induction items as [|item items IH]; intros st Hb; simpl; [now split|].
  destruct (para_step_lift thresh st item Hb) as (-> & Hb').
  now apply IH.
Qed.

Lemma segment_at_lift thresh lines :
  (let '(paras, cur_lines, block_y0, block_y1, _) :=
     fold_left (TwoColumnsFile.para_step thresh)
               (combine lines (mids_of lines)) ([], [], None, None, None) in
   if nonempty cur_lines
   then paras ++ [(cur_lines, block_y0, block_y1)]
   else paras)
  = map lift_para (segment_at thresh lines).
Proof.
  unfold segment_at.
  destruct (para_loop_lift thresh (combine lines (mids_of lines))
              ([], [], None, None, None)) as (E & Hb).
  { intros H. now elim H. }
  change ([], [], None, None, None)
    with (lift_state ([], [], None, None, None)) at 1.
  rewrite E.
  destruct (fold_left (para_step thresh) (combine lines (mids_of lines))
              ([], [], None, None, None)) as [[[[paras cur] b0] b1] pm].
  cbn [lift_state bounds_set] in *.
  destruct (nonempty cur) eqn:Hne; [|reflexivity].
  apply nonempty_true in Hne. destruct (Hb Hne) as (H0 & H1).
  destruct b0 as [v0|]; [|congruence]. destruct b1 as [v1|]; [|congruence].
  now rewrite map_app.
Qed.

(** The segmenter of [two_columns_file_extract.py] returns the paragraphs of
    the segmenter of [extract_pdf_data.py]. *)
Lemma two_columns_file_segmenter lines para_factor :
  TwoColumnsFile.collect_paragraphs_with_y lines para_factor
  = map lift_para (collect_paragraphs_with_y lines para_factor).
Proof.
  unfold TwoColumnsFile.collect_paragraphs_with_y, collect_paragraphs_with_y.
  destruct lines as [|l0 lines]; [reflexivity|].
  destruct (nonempty (diffs_of (mids_of (l0 :: lines)))) eqn:Hd; cbn [negb].
  - unfold TwoColumnsFile.median_gap, para_thresh. rewrite Hd.
    apply segment_at_lift.
  - apply diffs_of_nil_inv in Hd. subst lines.
    destruct l0 as [[t0 y0] y1]. reflexivity.
Qed.

(* ================================================================== *)
(** * Paragraph segmenter: the two properties, for both scripts *)
(* ================================================================== *)

(** C9. The paragraphs of any sequence of lines each hold at least one
    line, their line lists put end to end are the texts of the lines in
    order, and so there are no more paragraphs than lines; in
    [extract_pdf_data.py] and in [two_columns_file_extract.py] alike. *)
Theorem paragraph_partition :
  forall (lines : list yline) (para_factor : Q),
    (let paras := collect_paragraphs_with_y lines para_factor in
     Forall (fun p => 1 <= List.length (para_lines p)) paras
     /\ List.concat (map para_lines paras) = map yline_text lines
     /\ List.length paras <= List.length lines)
    /\ (let paras := TwoColumnsFile.collect_paragraphs_with_y lines para_factor in
        Forall (fun p => 1 <= List.length (fst (fst p))) paras
        /\ List.concat (map (fun p => fst (fst p)) paras) = map yline_text lines
        /\ List.length paras <= List.length lines).
Proof.
  intros lines f.
  assert (Hmain :
    let paras := collect_paragraphs_with_y lines f in
    Forall (fun p => 1 <= List.length (para_lines p)) paras
    /\ List.concat (map para_lines paras) = map yline_text lines
    /\ List.length paras <= List.length lines).
  { intros paras.
    destruct (collect_paragraphs_partition lines f) as (Hall & Htx).
    fold paras in Hall, Htx. split; [|split].
    - eapply Forall_impl; [|exact Hall]. intros p Hp. cbv beta in Hp.
      destruct (para_lines p); [congruence|simpl; lia].
    - exact Htx.
    - assert (Hl : List.length (map para_lines paras)
                   <= List.length (List.concat (map para_lines paras))).
      { apply length_concat_nonempty. now apply Forall_map. }
      unfold texts_of_paras in Htx. rewrite Htx, !length_map in Hl. exact Hl. }
  split; [exact Hmain|].
  cbv zeta in *. rewrite two_columns_file_segmenter.
  destruct Hmain as (Hall & Htx & Hlen).
  assert (Hfst : forall p, fst (fst (lift_para p)) = para_lines p)
    by (now intros [[ls y0] y1]).
  split; [|split].
  - apply Forall_map. eapply Forall_impl; [|exact Hall].
    intros p Hp. cbv beta. now rewrite Hfst.
  - rewrite map_map. rewrite (map_ext _ para_lines Hfst). exact Htx.
  - now rewrite length_map.
Qed.

(** C2, as amended. With an even number [n >= 2] of gaps between the
    midpoints of consecutive lines, the reference spacing is the upper
    median of the gaps, the element of index [n/2] of the gaps in ascending
    order, and the lines are cut at that spacing times the paragraph
    factor; in [extract_pdf_data.py] and in [two_columns_file_extract.py]
    alike. *)
Theorem reference_spacing_upper_median :
  forall (lines : list yline) (para_factor : Q),
    let gaps := diffs_of (mids_of lines) in
    let n := List.length gaps in
    Nat.even n = true -> 2 <= n ->
    Permutation gaps (sorted_by Qltb gaps)
    /\ Sorted Qle (sorted_by Qltb gaps)
    /\ nth_error (sorted_by Qltb gaps) (n / 2) = Some (median_gap_of gaps)
    /\ para_thresh lines para_factor = (median_gap_of gaps * para_factor)%Q
    /\ collect_paragraphs_with_y lines para_factor
       = segment_at (median_gap_of gaps * para_factor)%Q lines
    /\ TwoColumnsFile.median_gap gaps = median_gap_of gaps
    /\ TwoColumnsFile.collect_paragraphs_with_y lines para_factor
       = map lift_para (segment_at (median_gap_of gaps * para_factor)%Q lines).
Proof.
  intros lines f gaps n _ Hn.
  assert (Hne : gaps <> []) by (subst n; destruct gaps; simpl in *; [lia|congruence]).
  destruct (sorted_gaps_ascending gaps) as (Hp & Hs).
  pose proof (collect_paragraphs_threshold lines f Hne) as Hc.
  repeat split; try assumption.
  - now apply median_gap_index.
  - unfold TwoColumnsFile.median_gap. apply nonempty_true in Hne.
    fold gaps. now rewrite Hne.
  - now rewrite two_columns_file_segmenter, Hc.
Qed.

Lemma reference_spacing_upper_median_witness :
  let lines : list yline := [("a", 0, 0); ("b", 1, 1); ("c", 4, 4)]%Q in
  let gaps := diffs_of (mids_of lines) in
  Nat.even (List.length gaps) = true /\ 2 <= List.length gaps
  /\ nth_error (sorted_by Qltb gaps) 1 = Some (median_gap_of gaps)
  /\ (median_gap_of gaps == 3)%Q.
Proof.
  intros lines gaps.
  assert (He : Nat.even (List.length gaps) = true) by reflexivity.
  assert (Hn : 2 <= List.length gaps) by (simpl; lia).
  split; [exact He|]. split; [exact Hn|].
  split; [|reflexivity].
  exact (proj1 (proj2 (proj2
           (reference_spacing_upper_median lines (3 # 2) He Hn)))).
Defined.

(** C2, as stated, fails on three lines with midpoints 0, 1 and 4: the gaps
    are 1 and 3, the lower median is 1, the reference spacing is 3; the
    lines then stay one paragraph, where a spacing of 1 would cut before the
    third. *)
Lemma reference_spacing_lower_median_counterexample :
  let lines : list yline := [("a", 0, 0); ("b", 1, 1); ("c", 4, 4)]%Q in
  let gaps := diffs_of (mids_of lines) in
  let n := List.length gaps in
  Nat.even n = true /\ 2 <= n
  /\ (nth (n / 2 - 1) (sorted_by Qltb gaps) 0 == 1)%Q
  /\ ~ (median_gap_of gaps == nth (n / 2 - 1) (sorted_by Qltb gaps) 0)%Q
  /\ ~ (para_thresh lines (3 # 2)
        == nth (n / 2 - 1) (sorted_by Qltb gaps) 0 * (3 # 2))%Q
  /\ ~ (TwoColumnsFile.median_gap gaps
        == nth (n / 2 - 1) (sorted_by Qltb gaps) 0)%Q
  /\ collect_paragraphs_with_y lines (3 # 2) = [(["a"; "b"; "c"], 0, 4)]%Q
  /\ segment_at (1 * (3 # 2)) lines = [(["a"; "b"], 0, 1); (["c"], 4, 4)]%Q.
Proof.
  cbv zeta. split; [reflexivity|]. split; [simpl; lia|].
  split; [reflexivity|]. split; [discriminate|]. split; [discriminate|].
  split; [discriminate|]. split; reflexivity.
Qed.

(* ================================================================== *)
(** * Line clusterer: the clusters *)
(* ================================================================== *)

Lemma Sorted_snoc_replace {A} (R : A -> A -> Prop) l s s' :
  (forall p, R p s -> R p s') -> Sorted R (l ++ [s]) -> Sorted R (l ++ [s']).
Proof.
  intros HR. induction l as [|a l IH]; intros H; simpl in *.
  - repeat constructor.
  - inversion H as [|? ? Hs Hhd]; subst. constructor; [now apply IH|].
    destruct l as [|b l]; simpl in *; inversion Hhd; subst; constructor; auto.
Qed.

Lemma Sorted_snoc_add {A} (R : A -> A -> Prop) l s t :
  Sorted R (l ++ [s]) -> R s t -> Sorted R ((l ++ [s]) ++ [t]).
Proof.
  intros H Hst. induction l as [|a l IH]; simpl in *.
  - repeat constructor. exact Hst.
  - inversion H as [|? ? Hs Hhd]; subst. constructor; [now apply IH|].
    destruct l as [|b l]; simpl in *; inversion Hhd; subst; now constructor.
Qed.

Lemma same_line_false_spaced top y1 y_tol :
  (y1 <= top)%Q -> same_line top y1 y_tol = false -> (y_tol < top - y1)%Q.
Proof.
  unfold same_line. intros Hle Hs. apply Qnot_le_lt. intros H.
  assert (Habs : (Qabs (top - y1) == top - y1)%Q).
  { apply Qabs_pos. unfold Qminus. rewrite <- (Qplus_opp_r y1).
    apply Qplus_le_compat; [exact Hle|apply Qle_refl]. }
  rewrite <- Habs in H. apply Qle_bool_iff in H. congruence.
Qed.

Section Clusters.

Context {A : Type} (top : A -> Q) (y_tol : Q).

Lemma cluster_step_inv lines cur y0 y1 a :
  clusters_inv top y_tol (lines, cur, y0, y1) -> (y1 <= top a)%Q ->
  clusters_inv top y_tol (cluster_step top y_tol (lines, cur, y0, y1) a)
  /\ List.concat (map (fun c => fst (fst c))
       (clusters_of (cluster_step top y_tol (lines, cur, y0, y1) a)))
     = List.concat (map (fun c => fst (fst c)) (clusters_of (lines, cur, y0, y1)))
       ++ [a]
  /\ snd (cluster_step top y_tol (lines, cur, y0, y1) a) = top a.
Proof.
  unfold clusters_inv. cbn [clusters_of cluster_step].
  intros (Hok & Hsp) Hle.
  apply Forall_app in Hok as (Hlines & Hcur).
  apply Forall_inv in Hcur. destruct Hcur as ((x & tl & -> & ->) & Hlast & Hall).
  assert (Hx : (top x <= y1)%Q) by (now apply Forall_inv in Hall).
  destruct (same_line (top a) y1 y_tol) eqn:Hs; cbn [clusters_of snd].
  - split; [split|split; [|reflexivity]].
    + apply Forall_app. split; [exact Hlines|]. constructor; [|constructor].
      split; [now exists x, (tl ++ [a])|].
      split; [now exists (x :: tl), a|].
      apply Forall_app. split.
      * eapply Forall_impl; [|exact Hall]. cbv beta. intros z (Hz0 & Hz1).
        split; [exact Hz0|]. now apply Qle_trans with y1.
      * constructor; [|constructor]. split; [|apply Qle_refl].
        now apply Qle_trans with y1.
    + rewrite map_app in *. cbn [map cluster_span] in *.
      eapply Sorted_snoc_replace; [|exact Hsp]. intros p Hp. exact Hp.
    + rewrite !map_app, !concat_app. cbn [map List.concat fst].
      now rewrite !app_nil_r, app_assoc.
  - split; [split|split; [|reflexivity]].
    + apply Forall_app. split.
      * apply Forall_app. split; [exact Hlines|]. constructor; [|constructor].
        split; [now exists x, tl|]. split; assumption.
      * constructor; [|constructor].
        split; [now exists a, []|]. split; [now exists [], a|].
        constructor; [|constructor]. split; apply Qle_refl.
    + rewrite !map_app in *. cbn [map cluster_span] in *.
      apply Sorted_snoc_add; [exact Hsp|].
      unfold spaced. cbn [fst snd]. now apply same_line_false_spaced.
    + rewrite !map_app, !concat_app. cbn [map List.concat fst].
      now rewrite !app_nil_r.
Qed.

Lemma cluster_loop_inv rest : forall st,
  clusters_inv top y_tol st -> ascending top (snd st) rest ->
  clusters_inv top y_tol (fold_left (cluster_step top y_tol) rest st)
  /\ List.concat (map (fun c => fst (fst c))
       (clusters_of (fold_left (cluster_step top y_tol) rest st)))
     = List.concat (map (fun c => fst (fst c)) (clusters_of st)) ++ rest.
Proof.
  induction rest as [|a rest IH]; intros [[[lines cur] y0] y1] Hinv Hasc.
  - split; [exact Hinv|now rewrite app_nil_r].
  - cbn [ascending snd] in Hasc. destruct Hasc as (Hle & Hasc).
    destruct (cluster_step_inv lines cur y0 y1 a Hinv Hle) as (Hinv' & Hc & Hy).
    cbn [fold_left].
    destruct (IH (cluster_step top y_tol (lines, cur, y0, y1) a) Hinv') as (H1 & H2).
    { now rewrite Hy. }
    split; [exact H1|]. rewrite H2, Hc, <- app_assoc. reflexivity.
Qed.

(** The loop started on the first token of an ascending sequence. *)
Lemma cluster_loop_start c0 rest :
  ascending top (top c0) rest ->
  let st := fold_left (cluster_step top y_tol) rest ([], [c0], top c0, top c0) in
  Forall (cluster_ok top) (clusters_of st)
  /\ Sorted (spaced y_tol) (map cluster_span (clusters_of st))
  /\ List.concat (map (fun c => fst (fst c)) (clusters_of st)) = c0 :: rest.
Proof.
  intros Hasc st.
  destruct (cluster_loop_inv rest ([], [c0], top c0, top c0)) as ((H1 & H2) & H3).
  - split; cbn [clusters_of app map cluster_span].
    + constructor; [|constructor].
      split; [now exists c0, []|]. split; [now exists [], c0|].
      constructor; [|constructor]. split; apply Qle_refl.
    + repeat constructor.
  - exact Hasc.
  - repeat split; assumption.
Qed.

Lemma sorted_ascending (lt : A -> A -> bool) c0 rest :
  (forall a b, lt b a = false -> (top a <= top b)%Q) ->
  Sorted (fun a b => lt b a = false) (c0 :: rest) ->
  ascending top (top c0) rest.
Proof.
  intros Hlt. revert c0. induction rest as [|a rest IH]; intros c0 H; [exact I|].
  inversion H as [|? ? Hs Hhd]; subst. inversion Hhd; subst.
  split; [now apply Hlt|now apply IH].
Qed.

End Clusters.

Lemma top_x0_lt_asym t1 x1 t2 x2 :
  top_x0_lt t1 x1 t2 x2 = true -> top_x0_lt t2 x2 t1 x1 = false.
Proof.
  unfold top_x0_lt. rewrite orb_true_iff, andb_true_iff, orb_false_iff, andb_false_iff.
  intros [H|[He Hx]].
  - split; [now apply Qltb_asym|]. left.
    apply Qltb_true_lt in H. destruct (Qeq_bool t2 t1) eqn:E; [|reflexivity].
    apply Qeq_bool_iff in E. rewrite E in H. now apply Qlt_irrefl in H.
  - apply Qeq_bool_iff in He. split.
    + apply Qltb_false_le. rewrite He. apply Qle_refl.
    + right. now apply Qltb_asym.
Qed.

Lemma top_x0_lt_false_le t1 x1 t2 x2 :
  top_x0_lt t2 x2 t1 x1 = false -> (t1 <= t2)%Q.
Proof.
  unfold top_x0_lt. rewrite orb_false_iff. intros [H _].
  now apply Qltb_false_le.
Qed.

(** [sorted(chars, key=...)] and [sorted(words, key=...)] come top to
    bottom. *)
Lemma sorted_chars_ascending chars c0 rest :
  sorted_by char_key_lt chars = c0 :: rest -> ascending c_top (c_top c0) rest.
Proof.
  intros E. apply (sorted_ascending c_top char_key_lt).
  - intros a b. apply top_x0_lt_false_le.
  - rewrite <- E. apply sorted_by_sorted.
    intros a b. apply top_x0_lt_asym.
Qed.

Lemma sorted_words_ascending words w0 rest :
  sorted_by word_key_lt words = w0 :: rest -> ascending w_top (w_top w0) rest.
Proof.
  intros E. apply (sorted_ascending w_top word_key_lt).
  - intros a b. apply top_x0_lt_false_le.
  - rewrite <- E. apply sorted_by_sorted.
    intros a b. apply top_x0_lt_asym.
Qed.

Lemma sorted_by_nil_inv {A} (lt : A -> A -> bool) l :
  sorted_by lt l = [] -> l = [].
Proof.
  intros E. apply length_zero_iff_nil.
  now rewrite <- (sorted_by_length lt l), E.
Qed.

Lemma chars_step_cluster_step y_tol st c :
  chars_step y_tol st c = cluster_step c_top y_tol st c.
Proof. now destruct st as [[[lines cur] y0] y1]. Qed.

Lemma fold_left_ext {S T} (f g : S -> T -> S) l :
  (forall s t, f s t = g s t) -> forall s, fold_left f l s = fold_left g l s.
Proof.
  intros H. induction l as [|t l IH]; intros s; [reflexivity|].
  cbn [fold_left]. now rewrite H, IH.
Qed.

(** The clusters behind the lines of [group_chars_to_lines]. *)
Lemma chars_clusters chars y_tol :
  exists clusters : list (list pchar * Q * Q),
    List.concat (map (fun c => fst (fst c)) clusters) = sorted_by char_key_lt chars
    /\ Forall (cluster_ok c_top) clusters
    /\ Sorted (spaced y_tol) (map cluster_span clusters)
    /\ group_chars_to_lines chars y_tol = map finish_char_line clusters.
Proof.
  unfold group_chars_to_lines.
  destruct (sorted_by char_key_lt chars) as [|c0 rest] eqn:E.
  - apply sorted_by_nil_inv in E. subst chars. exists [].
    repeat split; constructor.
  - assert (Hne : chars <> []) by (intros ->; discriminate E).
    destruct chars as [|c chars]; [congruence|].
    rewrite (fold_left_ext _ _ rest (chars_step_cluster_step y_tol)).
    pose proof (cluster_loop_start c_top y_tol c0 rest
                  (sorted_chars_ascending _ _ _ E)) as H. cbv zeta in H.
    destruct (fold_left (cluster_step c_top y_tol) rest ([], [c0], c_top c0, c_top c0))
      as [[[lines cur] y0] y1].
    cbn [clusters_of] in H. destruct H as (Hok & Hsp & Hc).
    exists (lines ++ [(cur, y0, y1)]). repeat split; assumption.
Qed.

Lemma words_step_flush y_tol st w :
  words_step y_tol (flush_state st) w
  = flush_state (cluster_step w_top y_tol st w).
Proof.
  destruct st as [[[lines cur] y0] y1]. cbn [flush_state words_step cluster_step].
  destruct (same_line (w_top w) y1 y_tol); cbn [flush_state]; [reflexivity|].
  now rewrite map_app.
Qed.

Lemma words_loop_flush y_tol rest : forall st,
  fold_left (words_step y_tol) rest (flush_state st)
  = flush_state (fold_left (cluster_step w_top y_tol) rest st).
Proof.
  induction rest as [|w rest IH]; intros st; [reflexivity|].
  cbn [fold_left]. now rewrite words_step_flush, IH.
Qed.

(** The clusters behind the lines of [group_words_to_lines_with_y]. *)
Lemma words_clusters words y_tol :
  exists clusters : list (list word * Q * Q),
    List.concat (map (fun c => fst (fst c)) clusters) = sorted_by word_key_lt words
    /\ Forall (cluster_ok w_top) clusters
    /\ Sorted (spaced y_tol) (map cluster_span clusters)
    /\ group_words_to_lines_with_y words y_tol = map flush_cluster clusters.
Proof.
  unfold group_words_to_lines_with_y.
  destruct (sorted_by word_key_lt words) as [|w0 rest] eqn:E.
  - apply sorted_by_nil_inv in E. subst words. exists [].
    repeat split; constructor.
  - assert (Hne : words <> []) by (intros ->; discriminate E).
    destruct words as [|w words]; [congruence|].
    change ([], [w0], w_top w0, w_top w0)
      with (flush_state ([], [w0], w_top w0, w_top w0)).
    rewrite words_loop_flush.
    pose proof (cluster_loop_start w_top y_tol w0 rest
                  (sorted_words_ascending _ _ _ E)) as H. cbv zeta in H.
    destruct (fold_left (cluster_step w_top y_tol) rest ([], [w0], w_top w0, w_top w0))
      as [[[lines cur] y0] y1].
    cbn [clusters_of flush_state] in *. destruct H as (Hok & Hsp & Hc).
    exists (lines ++ [(cur, y0, y1)]). repeat split; try assumption.
    now rewrite map_app.
Qed.

Lemma cluster_ok_bounds {A} (top : A -> Q) cl y0 y1 :
  cluster_ok top (cl, y0, y1) ->
  cl <> []
  /\ (exists x, In x cl /\ top x = y0)
  /\ (exists x, In x cl /\ top x = y1)
  /\ (forall x, In x cl -> (y0 <= top x)%Q /\ (top x <= y1)%Q)
  /\ (y0 <= y1)%Q.
Proof.
  intros ((x & tl & -> & ->) & (pre & z & E & ->) & Hall).
  rewrite Forall_forall in Hall.
  split; [discriminate|]. split; [exists x; split; [now left|reflexivity]|].
  split; [exists z; split; [rewrite E; apply in_or_app; right; now left|reflexivity]|].
  split; [exact Hall|]. apply (Hall x). now left.
Qed.

(** X1. [group_chars_to_lines] puts every character of the page in exactly
    one line: the lines are made of clusters that, end to end, are the
    characters sorted by (top, x0); no cluster is empty, and the [y0] and
    [y1] of a line are the least and the greatest [top] of its characters. *)
Theorem chars_lines_partition :
  forall (chars : list pchar) (y_tol : Q),
  exists clusters : list (list pchar * Q * Q),
    group_chars_to_lines chars y_tol = map finish_char_line clusters
    /\ List.concat (map (fun c => fst (fst c)) clusters)
       = sorted_by char_key_lt chars
    /\ Permutation chars (List.concat (map (fun c => fst (fst c)) clusters))
    /\ Forall (fun c =>
         let '(cl, y0, y1) := c in
         cl <> []
         /\ (exists x, In x cl /\ c_top x = y0)
         /\ (exists x, In x cl /\ c_top x = y1)
         /\ (forall x, In x cl -> (y0 <= c_top x)%Q /\ (c_top x <= y1)%Q))
         clusters.
Proof.
  intros chars y_tol.
  destruct (chars_clusters chars y_tol) as (clusters & Hc & Hok & _ & Hg).
  exists clusters. split; [exact Hg|]. split; [exact Hc|].
  split; [rewrite Hc; apply sorted_by_perm|].
  eapply Forall_impl; [|exact Hok]. intros [[cl y0] y1] H.
  apply cluster_ok_bounds in H. tauto.
Qed.

(** X2. [group_words_to_lines_with_y] puts every word of the stream in
    exactly one line: the text of a line is the texts of the words of its
    cluster, in the order of their [x0], joined by spaces; the clusters, end
    to end, are the words sorted by (top, x0); and the [y0] and [y1] of a line
    are the least and the greatest [top] of its words. *)
Theorem words_lines_partition :
  forall (words : list word) (y_tol : Q),
  exists clusters : list (list word * Q * Q),
    group_words_to_lines_with_y words y_tol
    = map (fun c => let '(cl, y0, y1) := c in (flush_words cl, y0, y1)) clusters
    /\ List.concat (map (fun c => fst (fst c)) clusters)
       = sorted_by word_key_lt words
    /\ Permutation words (List.concat (map (fun c => fst (fst c)) clusters))
    /\ Forall (fun c =>
         let '(cl, y0, y1) := c in
         cl <> []
         /\ (exists x, In x cl /\ w_top x = y0)
         /\ (exists x, In x cl /\ w_top x = y1)
         /\ (forall x, In x cl -> (y0 <= w_top x)%Q /\ (w_top x <= y1)%Q))
         clusters.
Proof.
  intros words y_tol.
  destruct (words_clusters words y_tol) as (clusters & Hc & Hok & _ & Hg).
  exists clusters. split; [exact Hg|]. split; [exact Hc|].
  split; [rewrite Hc; apply sorted_by_perm|].
  eapply Forall_impl; [|exact Hok]. intros [[cl y0] y1] H.
  apply cluster_ok_bounds in H. tauto.
Qed.

Lemma cluster_spans_ordered {A} (top : A -> Q) (clusters : list (list A * Q * Q)) :
  Forall (cluster_ok top) clusters ->
  Forall (fun s => (fst s <= snd s)%Q) (map cluster_span clusters).
Proof.
  intros H. apply Forall_map. eapply Forall_impl; [|exact H].
  intros [[cl y0] y1] Hc. now apply cluster_ok_bounds in Hc.
Qed.

Lemma clusterers_descend :
  forall (y_tol : Q),
    (forall chars,
        let spans := map bline_span (group_chars_to_lines chars y_tol) in
        Forall (fun s => (fst s <= snd s)%Q) spans
        /\ Sorted (fun s t => (y_tol < fst t - snd s)%Q) spans)
    /\ (forall words,
          let spans := map yline_span (group_words_to_lines_with_y words y_tol) in
          Forall (fun s => (fst s <= snd s)%Q) spans
          /\ Sorted (fun s t => (y_tol < fst t - snd s)%Q) spans).
Proof.
  intros y_tol. split.
  - intros chars spans. subst spans.
    destruct (chars_clusters chars y_tol) as (clusters & _ & Hok & Hsp & ->).
    rewrite map_map.
    rewrite (map_ext _ cluster_span) by (now intros [[cl y0] y1]).
    split; [now apply (cluster_spans_ordered c_top)|exact Hsp].
  - intros words spans. subst spans.
    destruct (words_clusters words y_tol) as (clusters & _ & Hok & Hsp & ->).
    rewrite map_map.
    rewrite (map_ext _ cluster_span) by (now intros [[cl y0] y1]).
    split; [now apply (cluster_spans_ordered w_top)|exact Hsp].
Qed.

(** X3. The lines of both clusterers come out top to bottom: in each line
    [y0 <= y1], and each line starts more than [y_tol] below the [y1] of the
    line before it. *)
Theorem lines_top_to_bottom :
  forall (y_tol : Q),
    (forall chars,
        let spans := map bline_span (group_chars_to_lines chars y_tol) in
        Forall (fun s => (fst s <= snd s)%Q) spans
        /\ Sorted (fun s t => (y_tol < fst t - snd s)%Q) spans)
    /\ (forall words,
          let spans := map yline_span (group_words_to_lines_with_y words y_tol) in
          Forall (fun s => (fst s <= snd s)%Q) spans
          /\ Sorted (fun s t => (y_tol < fst t - snd s)%Q) spans).
Proof. exact clusterers_descend. Qed.

(* ================================================================== *)
(** * Line clusterer: font weight *)
(* ================================================================== *)

Lemma existsb_perm {A} (f : A -> bool) l l' :
  Permutation l l' -> existsb f l = existsb f l'.
Proof.
  induction 1 as [|x l l' _ IH|x y l|l l' l'' _ IH1 _ IH2]; simpl.
  - reflexivity.
  - now rewrite IH.
  - now rewrite !orb_assoc, (orb_comm (f y)).
  - now rewrite IH1.
Qed.

Lemma existsb_concat {A} (f : A -> bool) (ls : list (list A)) :
  existsb f (List.concat ls) = existsb (existsb f) ls.
Proof.
  induction ls as [|l ls IH]; simpl; [reflexivity|].
  now rewrite existsb_app, IH.
Qed.

Lemma finish_char_line_bold cl y0 y1 :
  bline_bold (finish_char_line (cl, y0, y1)) = existsb char_is_bold cl.
Proof.
  cbn [finish_char_line bline_bold]. symmetry.
  apply existsb_perm, sorted_by_perm.
Qed.

Lemma lines_bold_exists chars y_tol :
  existsb bline_bold (group_chars_to_lines chars y_tol)
  = existsb char_is_bold chars.
Proof.
  destruct (chars_clusters chars y_tol) as (clusters & Hc & _ & _ & ->).
  rewrite (existsb_perm _ _ _ (sorted_by_perm char_key_lt chars)), <- Hc.
  rewrite existsb_concat. clear Hc.
  induction clusters as [|[[cl y0] y1] clusters IH]; [reflexivity|].
  cbn [map existsb fst]. now rewrite finish_char_line_bold, IH.
Qed.

(** X4. A page has a bold line exactly when it has a character in a font
    whose name holds "Bold". *)
Theorem bold_line_iff_bold_char :
  forall (chars : list pchar) (y_tol : Q),
    existsb bline_bold (group_chars_to_lines chars y_tol)
    = existsb char_is_bold chars.
Proof. exact lines_bold_exists. Qed.

(** Neither clusterer makes more lines than it is given tokens. *)
Lemma clusters_count {A} (top : A -> Q) (clusters : list (list A * Q * Q)) :
  Forall (cluster_ok top) clusters ->
  List.length clusters
  <= List.length (List.concat (map (fun c => fst (fst c)) clusters)).
Proof.
  intros H. rewrite <- (length_map (fun c => fst (fst c)) clusters).
  apply length_concat_nonempty, Forall_map.
  eapply Forall_impl; [|exact H]. intros [[cl y0] y1] Hc.
  now apply cluster_ok_bounds in Hc.
Qed.

Lemma chars_lines_count chars y_tol :
  List.length (group_chars_to_lines chars y_tol) <= List.length chars.
Proof.
  destruct (chars_clusters chars y_tol) as (clusters & Hc & Hok & _ & ->).
  rewrite length_map, <- (sorted_by_length char_key_lt chars), <- Hc.
  now apply (clusters_count c_top).
Qed.

Lemma words_lines_count words y_tol :
  List.length (group_words_to_lines_with_y words y_tol) <= List.length words.
Proof.
  destruct (words_clusters words y_tol) as (clusters & Hc & Hok & _ & ->).
  rewrite length_map, <- (sorted_by_length word_key_lt words), <- Hc.
  now apply (clusters_count w_top).
Qed.

(* ================================================================== *)
(** * Column splitter *)
(* ================================================================== *)

Lemma filter_complement_perm {A} (f : A -> bool) l :
  Permutation l (filter f l ++ filter (fun x => negb (f x)) l).
Proof.
  induction l as [|x l IH]; [constructor|]. cbn [filter].
  destruct (f x); cbn [negb app].
  - now constructor.
  - now apply Permutation_cons_app.
Qed.

Lemma columns_length words x0_thresh :
  List.length (left_words words x0_thresh)
  + List.length (right_words words x0_thresh) = List.length words.
Proof.
  unfold left_words, right_words. rewrite !sorted_by_length.
  apply (count_left_right words x0_thresh).
Qed.

(** X5. The two column streams of a page are a partition of its words:
    every word is in exactly one of them, on the left when its [x0] is
    below the threshold and on the right otherwise. *)
Theorem column_split_partition :
  forall (words : list word) (x0_thresh : Q),
    Permutation words
      (left_words words x0_thresh ++ right_words words x0_thresh)
    /\ Forall (fun w => (w_x0 w < x0_thresh)%Q) (left_words words x0_thresh)
    /\ Forall (fun w => (x0_thresh <= w_x0 w)%Q) (right_words words x0_thresh)
    /\ List.length (left_words words x0_thresh)
       + List.length (right_words words x0_thresh) = List.length words.
Proof.
  intros words thr. unfold left_words, right_words.
  assert (Hp : Permutation words
                 (sorted_by word_key_lt
                    (filter (fun w => Qltb (w_x0 w) thr) words)
                  ++ sorted_by word_key_lt
                       (filter (fun w => Qle_bool thr (w_x0 w)) words))).
  { rewrite <- !sorted_by_perm.
    rewrite (filter_ext (fun w => Qle_bool thr (w_x0 w))
                        (fun w => negb (Qltb (w_x0 w) thr))).
    - apply filter_complement_perm.
    - intros w. unfold Qltb. now rewrite negb_involutive. }
  split; [exact Hp|]. split; [|split].
  - apply Forall_forall. intros w Hw.
    apply (Permutation_in _ (Permutation_sym (sorted_by_perm _ _))) in Hw.
    apply filter_In in Hw as (_ & Hw). now apply Qltb_true_lt.
  - apply Forall_forall. intros w Hw.
    apply (Permutation_in _ (Permutation_sym (sorted_by_perm _ _))) in Hw.
    apply filter_In in Hw as (_ & Hw). now apply Qle_bool_iff.
  - rewrite <- length_app. symmetry. now apply Permutation_length.
Qed.

(* ================================================================== *)
(** * Headers of a page *)
(* ================================================================== *)

Lemma all_chars_lstrip p s :
  PyStr.all_chars p s = true -> PyStr.all_chars p (PyStr.lstrip s) = true.
Proof.
  induction s as [|c s IH]; [easy|]. cbn [PyStr.lstrip PyStr.all_chars].
  intros H. apply andb_true_iff in H as (Hc & Hs).
  destruct (PyStr.isspace c); [now apply IH|].
  cbn [PyStr.all_chars]. now rewrite Hc, Hs.
Qed.

Lemma all_chars_rstrip p s :
  PyStr.all_chars p s = true -> PyStr.all_chars p (PyStr.rstrip s) = true.
Proof.
  induction s as [|c s IH]; [easy|]. cbn [PyStr.rstrip PyStr.all_chars].
  intros H. apply andb_true_iff in H as (Hc & Hs). specialize (IH Hs).
  destruct (PyStr.rstrip s) as [|c' r'].
  - destruct (PyStr.isspace c); [reflexivity|]. cbn. now rewrite Hc.
  - cbn [PyStr.all_chars] in *. now rewrite Hc, IH.
Qed.

Lemma all_chars_strip p s :
  PyStr.all_chars p s = true -> PyStr.all_chars p (PyStr.strip s) = true.
Proof. intros H. now apply all_chars_rstrip, all_chars_lstrip. Qed.

Lemma split1_head_no_sep sep s :
  PyStr.all_chars (fun c => negb (Ascii.eqb c sep)) (PyStr.split1_head sep s)
  = true.
Proof.
  induction s as [|c s IH]; [reflexivity|]. cbn [PyStr.split1_head].
  destruct (Ascii.eqb c sep) eqn:E; [reflexivity|].
  cbn [PyStr.all_chars]. now rewrite E, IH.
Qed.

Lemma rstrip_split1_head_empty sep u :
  PyStr.rstrip u = "" -> PyStr.rstrip (PyStr.split1_head sep u) = "".
Proof.
  induction u as [|d u IHu]; [easy|].
  cbn [PyStr.rstrip PyStr.split1_head].
  destruct (PyStr.rstrip u) eqn:Eu; [|discriminate].
  destruct (PyStr.isspace d) eqn:Hd; [|discriminate]. intros _.
  destruct (Ascii.eqb d sep); [reflexivity|].
  cbn [PyStr.rstrip]. now rewrite (IHu eq_refl), Hd.
Qed.

(** Trimming the text before the first separator keeps only characters
    of the trimmed whole text. *)
Lemma rstrip_split1_head p sep s :
  PyStr.all_chars p (PyStr.rstrip s) = true ->
  PyStr.all_chars p (PyStr.rstrip (PyStr.split1_head sep s)) = true.
Proof.
  induction s as [|c s IH]; [easy|].
  cbn [PyStr.split1_head]. destruct (Ascii.eqb c sep); [easy|].
  cbn [PyStr.rstrip].
  destruct (PyStr.rstrip s) as [|c1 r1] eqn:E1.
  - rewrite (rstrip_split1_head_empty sep s E1). exact id.
  - cbn [PyStr.all_chars]. intros H. apply andb_true_iff in H as (Hp & Hr).
    specialize (IH Hr).
    destruct (PyStr.rstrip (PyStr.split1_head sep s)) as [|c2 r2].
    + destruct (PyStr.isspace c); [reflexivity|]. cbn. now rewrite Hp.
    + cbn [PyStr.all_chars] in *. now rewrite Hp, IH.
Qed.

Lemma lstrip_split1_head sep s :
  PyStr.isspace sep = false ->
  PyStr.lstrip (PyStr.split1_head sep s) = PyStr.split1_head sep (PyStr.lstrip s).
Proof.
  intros Hsep. induction s as [|c s IH]; [reflexivity|].
  cbn [PyStr.split1_head PyStr.lstrip].
  destruct (Ascii.eqb_spec c sep) as [->|Hne].
  - rewrite Hsep. cbn [PyStr.split1_head PyStr.lstrip]. now rewrite Ascii.eqb_refl.
  - cbn [PyStr.lstrip]. destruct (PyStr.isspace c); [exact IH|].
    cbn [PyStr.split1_head]. destruct (Ascii.eqb_spec c sep); [congruence|reflexivity].
Qed.

(** The name kept for a header text holds only characters of the trimmed
    text. *)
Lemma header_name_chars p t :
  PyStr.all_chars p (PyStr.strip t) = true ->
  PyStr.all_chars p (PyStr.strip (PyStr.split1_head "/" t)) = true.
Proof.
  unfold PyStr.strip. rewrite lstrip_split1_head by reflexivity.
  apply rstrip_split1_head.
Qed.

Lemma collect_headers_In full_paras m name :
  In (m, name) (collect_headers full_paras) ->
  exists t y0 y1,
    In ([t], y0, y1) full_paras /\ is_all_caps_header t = true
    /\ name = PyStr.strip (PyStr.split1_head "/" t) /\ m = ((y0 + y1) / 2)%Q.
Proof.
  induction full_paras as [|[[blk y0] y1] tl IH]; [intros []|].
  cbn [collect_headers].
  destruct (is_header_block blk) eqn:Hb.
  - destruct blk as [|t [|? ?]]; try discriminate. cbn [hd is_header_block] in *.
    intros [[= <- <-]|H].
    + exists t, y0, y1. repeat split; [now left|exact Hb].
    + destruct (IH H) as (t' & a & b & Hin & ?). exists t', a, b.
      split; [now right|assumption].
  - intros H. destruct (IH H) as (t' & a & b & Hin & ?). exists t', a, b.
    split; [now right|assumption].
Qed.

Lemma page_headers_sorted words :
  StronglySorted (fun a b : Q * string => (fst a <= fst b)%Q) (page_headers words).
Proof.
  apply Sorted_StronglySorted.
  - intros a b c Hab Hbc. now apply Qle_trans with (fst b).
  - unfold page_headers.
    pose proof (sorted_by_sorted (fun a b : Q * string => Qltb (fst a) (fst b))
                  (fun a b => Qltb_asym (fst a) (fst b))
                  (collect_headers
                     (collect_paragraphs_with_y
                        (group_words_to_lines_with_y words 3) (3 # 2)))) as H.
    induction H as [|y l Hs IH Hhd]; constructor; [exact IH|].
    destruct Hhd; constructor. now apply Qltb_false_le.
Qed.

(** X6. The headers of a page are sorted by height; each is a paragraph of
    the whole page made of one header-shaped line; its name is the text
    before the first slash, trimmed, and so holds capitals and spaces only,
    no slash, and no white space at either end. *)
Theorem page_headers_wellformed :
  forall (words : list word),
    let full_paras :=
      collect_paragraphs_with_y (group_words_to_lines_with_y words 3) (3 # 2) in
    Sorted (fun a b : Q * string => (fst a <= fst b)%Q) (page_headers words)
    /\ forall m name,
         In (m, name) (page_headers words) ->
         (exists t y0 y1,
             In ([t], y0, y1) full_paras /\ is_all_caps_header t = true
             /\ name = PyStr.strip (PyStr.split1_head "/" t)
             /\ m = ((y0 + y1) / 2)%Q)
         /\ PyStr.strip name = name
         /\ PyStr.all_chars
              (fun c => PyStr.isupper c || Ascii.eqb c " ") name = true.
Proof.
  intros words full_paras.
  split; [apply StronglySorted_Sorted, page_headers_sorted|].
  intros m name Hin. unfold page_headers in Hin.
  apply (Permutation_in _ (Permutation_sym (sorted_by_perm _ _))) in Hin.
  destruct (collect_headers_In _ _ _ Hin) as (t & y0 & y1 & Hp & Ht & -> & ->).
  split; [now exists t, y0, y1|]. split; [apply strip_idem|].
  assert (Hh : PyStr.all_chars header_char (PyStr.strip t) = true).
  { unfold is_all_caps_header in Ht.
    destruct (negb (PyStr.truthy t)); [discriminate|].
    now apply andb_true_iff in Ht. }
  pose proof (header_name_chars _ _ Hh) as H1.
  pose proof (all_chars_strip _ _ (split1_head_no_sep "/" t)) as H2.
  apply all_chars_In. intros c Hc.
  rewrite all_chars_In in H1, H2. specialize (H1 c Hc). specialize (H2 c Hc).
  unfold header_char in H1. cbv beta in H2.
  destruct (Ascii.eqb c "/"); [discriminate|]. now rewrite orb_false_r in H1.
Qed.

Lemma header_scan_spec headers mid : forall ans,
  StronglySorted (fun a b : Q * string => (fst a <= fst b)%Q) headers ->
  (header_scan headers mid ans = ans
   /\ forall h, In h headers -> (mid < fst h)%Q)
  \/ (exists m name,
         header_scan headers mid ans = Some name
         /\ In (m, name) headers /\ (m <= mid)%Q
         /\ forall h, In h headers -> (fst h <= mid)%Q -> (fst h <= m)%Q).
Proof.
  induction headers as [|[m name] tl IH]; intros ans Hs.
  - left. split; [reflexivity|intros h []].
  - apply StronglySorted_inv in Hs as (Hs & Hall). rewrite Forall_forall in Hall.
    cbn [header_scan]. destruct (Qle_bool m mid) eqn:E.
    + apply Qle_bool_iff in E. right.
      destruct (IH (Some name) Hs) as [(Hr & Hab)|(m' & name' & Hr & Hin & Hle & Hmax)].
      * exists m, name. split; [exact Hr|]. split; [now left|].
        split; [exact E|]. intros h [<-|Hh] Hh'; [apply Qle_refl|].
        apply Hab in Hh. now apply Qlt_not_le in Hh.
      * exists m', name'. split; [exact Hr|]. split; [now right|].
        split; [exact Hle|]. intros h [<-|Hh] Hh'; [|now apply Hmax].
        apply (Hall (m', name') Hin).
    + left. split; [reflexivity|].
      assert (Hlt : (mid < m)%Q).
      { apply Qnot_le_lt. intros H. apply Qle_bool_iff in H. congruence. }
      intros h [<-|Hh]; [exact Hlt|].
      apply Qlt_le_trans with m; [exact Hlt|]. now apply (Hall h).
Qed.

(** X7. [header_for_mid] finds the nearest header at or above a midpoint:
    the answer is a header of the page that is not below the midpoint and is
    not above any other such header; it is [None] exactly when every header
    of the page is below the midpoint. *)
Theorem nearest_header_above :
  forall (words : list word) (mid : Q),
    match header_for_mid (page_headers words) mid with
    | Some name =>
        exists m,
          In (m, name) (page_headers words) /\ (m <= mid)%Q
          /\ forall h, In h (page_headers words) ->
                       (fst h <= mid)%Q -> (fst h <= m)%Q
    | None => forall h, In h (page_headers words) -> (mid < fst h)%Q
    end.
Proof.
  intros words mid. unfold header_for_mid.
  destruct (header_scan_spec (page_headers words) mid None
              (page_headers_sorted words))
    as [(-> & H)|(m & name & -> & Hin & Hle & Hmax)]; [exact H|].
  now exists m.
Qed.

(* ================================================================== *)
(** * Two-column assembler: where the records come from *)
(* ================================================================== *)

Lemma collect_paragraphs_count lines para_factor :
  List.length (collect_paragraphs_with_y lines para_factor) <= List.length lines.
Proof.
  destruct (collect_paragraphs_partition lines para_factor) as (Hall & Htx).
  rewrite <- (length_map yline_text lines), <- Htx.
  unfold texts_of_paras.
  rewrite <- (length_map para_lines (collect_paragraphs_with_y lines para_factor)).
  apply length_concat_nonempty. now apply Forall_map.
Qed.

Lemma column_records_count headers col_words :
  List.length (column_records headers (column_paras col_words))
  <= List.length col_words.
Proof.
  rewrite column_records_filter by apply column_paras_nonempty.
  rewrite length_map.
  apply Nat.le_trans with (List.length (column_paras col_words));
    [apply filter_length_le|].
  unfold column_paras.
  apply Nat.le_trans with (List.length (group_words_to_lines_with_y col_words 3));
    [apply collect_paragraphs_count|apply words_lines_count].
Qed.

(** X8. A page never gives more records than it has words. *)
Theorem twocol_records_bounded :
  forall (words : list word) (x0_thresh : Q),
    List.length (_twocol_records_from_words words x0_thresh)
    <= List.length words.
Proof.
  intros words thr. rewrite twocol_records_columns, length_app.
  rewrite <- (columns_length words thr).
  apply Nat.add_le_mono; apply column_records_count.
Qed.

(** X9. Every record of a page is the record of a paragraph of one of its
    two columns that is not a lone header line; and a delegation that is not
    empty is the name of the nearest header of the page at or above the
    midpoint of that paragraph. *)
Theorem twocol_record_provenance :
  forall (words : list word) (x0_thresh : Q) (r : Record_),
    In r (_twocol_records_from_words words x0_thresh) ->
    exists col p,
      In col (page_columns words x0_thresh)
      /\ In p (column_paras col) /\ suppressed p = false
      /\ r = record_of_block (page_headers words) p
      /\ (Delegation r <> "" ->
          exists m,
            In (m, Delegation r) (page_headers words)
            /\ (m <= para_mid p)%Q
            /\ forall h, In h (page_headers words) ->
                         (fst h <= para_mid p)%Q -> (fst h <= m)%Q).
Proof.
  intros words thr r Hr. unfold _twocol_records_from_words in Hr.
  apply in_flat_map in Hr as (col & Hcol & Hr).
  rewrite column_records_filter in Hr by apply column_paras_nonempty.
  apply in_map_iff in Hr as (p & <- & Hp). apply filter_In in Hp as (Hp & Hs).
  apply negb_true_iff in Hs.
  exists col, p. repeat split; try assumption.
  destruct p as [[blk y0] y1]. rewrite record_of_block_fields.
  cbn [Delegation para_mid]. unfold header_for_mid.
  destruct (header_scan_spec (page_headers words) ((y0 + y1) / 2)%Q None
              (page_headers_sorted words))
    as [(-> & _)|(m & name & -> & Hin & Hle & Hmax)].
  - intros H. now elim H.
  - intros Hne. unfold or_empty, opt_truthy in *.
    destruct (PyStr.truthy name); [|now elim Hne]. now exists m.
Qed.

(* ================================================================== *)
(** * Single-column assembler: where the records come from *)
(* ================================================================== *)

Lemma affiliation_span_split ls :
  exists pre,
    ls = pre ++ snd (affiliation_span ls)
    /\ Forall (fun l => plain_line l = true) pre
    /\ fst (affiliation_span ls) = map (fun l => PyStr.strip (bline_text l)) pre.
Proof.
  induction ls as [|[[[t y0] y1] b] ls (pre & E & Hpre & Hfst)].
  - exists []. repeat split. constructor.
  - cbn [affiliation_span].
    destruct (negb b && PyStr.truthy (PyStr.strip t)) eqn:Hc.
    + destruct (affiliation_span ls) as [aff rest]. cbn [fst snd] in *.
      exists ((t, y0, y1, b) :: pre). split; [now rewrite E at 1|].
      split; [now constructor|]. cbn [map bline_text]. now rewrite Hfst.
    + exists []. repeat split. constructor.
Qed.

Lemma truthy_strip_text t : PyStr.truthy (PyStr.strip t) = true -> t <> "".
Proof. intros H ->. discriminate H. Qed.

(** The walk, by cases on its first line. *)
Lemma singlecol_walk_cases d text y0 y1 b rest :
  (b = true /\ text <> ""
   /\ singlecol_walk d ((text, y0, y1, b) :: rest)
      = singlecol_walk (Some (PyStr.strip (PyStr.split1_head "/" text))) rest)
  \/ (b = false /\ text <> "" /\ opt_truthy d = true
      /\ singlecol_walk d ((text, y0, y1, b) :: rest)
         = mk_Record (or_empty d)
             (fst (split_honorific_and_person text))
             (snd (split_honorific_and_person text))
             (PyStr.strip (PyStr.join " " (fst (affiliation_span rest))))
           :: singlecol_walk d (snd (affiliation_span rest)))
  \/ ((text = "" \/ (b = false /\ opt_truthy d = false))
      /\ singlecol_walk d ((text, y0, y1, b) :: rest) = singlecol_walk d rest).
Proof.
  destruct text as [|c text].
  - right. right. split; [now left|]. apply singlecol_walk_skip. now left.
  - destruct b.
    + left. split; [reflexivity|]. split; [discriminate|].
      now apply singlecol_walk_bold.
    + destruct (opt_truthy d) eqn:Hd.
      * right. left. split; [reflexivity|]. split; [discriminate|].
        split; [reflexivity|]. now apply singlecol_walk_person.
      * right. right. split; [now right|]. apply singlecol_walk_skip. now right.
Qed.

Lemma or_empty_truthy d :
  opt_truthy d = true -> or_empty d <> "" /\ d = Some (or_empty d).
Proof.
  unfold or_empty, opt_truthy. destruct d as [s|]; [|discriminate].
  intros H. rewrite H. split; [now apply truthy_true|reflexivity].
Qed.

(** Every record of a walk started under the delegation [d]. *)
Lemma singlecol_walk_records n : forall d lines r,
  List.length lines <= n ->
  In r (singlecol_walk d lines) ->
  Delegation r <> ""
  /\ (d = Some (Delegation r)
      \/ exists text y0 y1,
           In (text, y0, y1, true) lines /\ text <> ""
           /\ Delegation r = PyStr.strip (PyStr.split1_head "/" text))
  /\ (exists text y0 y1,
         In (text, y0, y1, false) lines /\ text <> ""
         /\ (Honorific r, Person_Name r) = split_honorific_and_person text)
  /\ PyStr.strip (Affiliation r) = Affiliation r.
Proof.
  induction n as [|n IH]; intros d lines r Hlen Hr.
  - destruct lines; [destruct Hr|simpl in Hlen; lia].
  - destruct lines as [|[[[text y0] y1] b] rest]; [destruct Hr|].
    cbn [List.length] in Hlen. unfold bline in *.
    destruct (singlecol_walk_cases d text y0 y1 b rest)
      as [(-> & Ht & E)|[(-> & Ht & Hd & E)|(Hskip & E)]]; rewrite E in Hr.
    + destruct (IH _ rest r ltac:(lia) Hr) as (H1 & H2 & (t & a & c & H3 & H3') & H4).
      split; [exact H1|]. split; [|split; [|exact H4]].
      * right. destruct H2 as [[= H2]|(t' & a' & c' & Hin & H2)].
        -- exists text, y0, y1. split; [now left|]. split; [exact Ht|now symmetry].
        -- exists t', a', c'. split; [now right|exact H2].
      * exists t, a, c. split; [now right|exact H3'].
    + destruct (affiliation_span_split rest) as (pre & Erest & _ & _).
      destruct Hr as [<-|Hr].
      * cbn [Delegation Honorific Person_Name Affiliation].
        destruct (or_empty_truthy d Hd) as (Hne & Hsome).
        split; [exact Hne|]. split; [now left|]. split; [|apply strip_idem].
        exists text, y0, y1. split; [now left|]. split; [exact Ht|].
        now destruct (split_honorific_and_person text).
      * assert (Hlen' : List.length (snd (affiliation_span rest)) <= n).
        { rewrite Erest in Hlen at 1. rewrite length_app in Hlen. lia. }
        destruct (IH _ _ r Hlen' Hr) as (H1 & H2 & (t & a & c & H3 & H3') & H4).
        assert (Hsub : forall l, In l (snd (affiliation_span rest)) -> In l rest).
        { intros l Hl. rewrite Erest. apply in_or_app. now right. }
        split; [exact H1|]. split; [|split; [|exact H4]].
        -- destruct H2 as [H2|(t' & a' & c' & Hin & H2)]; [now left|].
           right. exists t', a', c'. split; [right; now apply Hsub|exact H2].
        -- exists t, a, c. split; [right; now apply Hsub|exact H3'].
    + destruct (IH _ rest r ltac:(lia) Hr) as (H1 & H2 & (t & a & c & H3 & H3') & H4).
      split; [exact H1|]. split; [|split; [|exact H4]].
      * destruct H2 as [H2|(t' & a' & c' & Hin & H2)]; [now left|].
        right. exists t', a', c'. split; [now right|exact H2].
      * exists t, a, c. split; [now right|exact H3'].
Qed.

(** X10. Every record of a single-column page has a delegation that is not
    empty and is the text before the first slash, trimmed, of a bold line of
    the page; its honorific and person are the parts of a line of the page
    that is not bold; and its affiliation is trimmed. *)
Theorem singlecol_record_provenance :
  forall (lines : list bline) (r : Record_),
    In r (singlecol_walk None lines) ->
    Delegation r <> ""
    /\ (exists text y0 y1,
           In (text, y0, y1, true) lines /\ text <> ""
           /\ Delegation r = PyStr.strip (PyStr.split1_head "/" text))
    /\ (exists text y0 y1,
           In (text, y0, y1, false) lines /\ text <> ""
           /\ (Honorific r, Person_Name r) = split_honorific_and_person text)
    /\ PyStr.strip (Affiliation r) = Affiliation r.
Proof.
  intros lines r Hr.
  destruct (singlecol_walk_records (List.length lines) None lines r (le_n _) Hr)
    as (H1 & [H2|H2] & H3 & H4); [discriminate|].
  repeat split; assumption.
Qed.

Lemma singlecol_walk_count n : forall d lines,
  List.length lines <= n ->
  List.length (singlecol_walk d lines)
  <= List.length (filter unbold_text_line lines).
Proof.
  induction n as [|n IH]; intros d lines Hlen.
  - destruct lines; [simpl; lia|simpl in Hlen; lia].
  - destruct lines as [|[[[text y0] y1] b] rest]; [simpl; lia|].
    cbn [List.length] in Hlen. unfold bline in *.
    destruct (singlecol_walk_cases d text y0 y1 b rest)
      as [(-> & Ht & E)|[(-> & Ht & Hd & E)|(Hskip & E)]]; rewrite E.
    + cbn [filter unbold_text_line bline_bold negb andb]. apply IH. lia.
    + apply truthy_true in Ht.
      cbn [filter unbold_text_line bline_bold bline_text negb andb].
      rewrite Ht. cbn [List.length]. apply le_n_S.
      destruct (affiliation_span_split rest) as (pre & Erest & _ & _).
      unfold bline in *.
      apply Nat.le_trans
        with (List.length (filter unbold_text_line (snd (affiliation_span rest)))).
      * apply IH. unfold bline.
        rewrite Erest in Hlen at 1. rewrite length_app in Hlen. lia.
      * rewrite Erest at 2. rewrite filter_app, length_app.
        unfold bline. apply Nat.le_add_l.
    + apply Nat.le_trans with (List.length (filter unbold_text_line rest));
        [apply IH; lia|].
      cbn [filter]. destruct (unbold_text_line (text, y0, y1, b));
        cbn [List.length]; [apply Nat.le_succ_diag_r|apply Nat.le_refl].
Qed.

Lemma singlecol_walk_no_bold d lines :
  opt_truthy d = false -> existsb bline_bold lines = false ->
  singlecol_walk d lines = [].
Proof.
  intros Hd. induction lines as [|[[[text y0] y1] b] rest IH]; [reflexivity|].
  cbn [existsb bline_bold]. intros H. apply orb_false_iff in H as (-> & H).
  rewrite singlecol_walk_skip; [now apply IH|]. now right.
Qed.

(** X11. A single-column page gives no more records than it has lines that
    are not bold and have text, and none at all when it has no bold line;
    so a page without a character in a bold font gives no record. *)
Theorem singlecol_records_bounded :
  (forall lines : list bline,
      List.length (singlecol_walk None lines)
      <= List.length (filter unbold_text_line lines)
      /\ (existsb bline_bold lines = false -> singlecol_walk None lines = []))
  /\ (forall chars : list pchar,
        List.length (singlecol_page chars) <= List.length chars
        /\ (existsb char_is_bold chars = false -> singlecol_page chars = [])).
Proof.
  split.
  - intros lines. split; [now apply (singlecol_walk_count (List.length lines))|].
    now apply singlecol_walk_no_bold.
  - intros chars. unfold singlecol_page. split.
    + apply Nat.le_trans with (List.length (group_chars_to_lines chars 3));
        [|apply chars_lines_count].
      apply Nat.le_trans
        with (List.length (filter unbold_text_line (group_chars_to_lines chars 3)));
        [now apply (singlecol_walk_count (List.length (group_chars_to_lines chars 3)))
        |apply filter_length_le].
    + intros H. apply singlecol_walk_no_bold; [reflexivity|].
      now rewrite lines_bold_exists.
Qed.

Lemma singlecol_records_bounded_witness :
  existsb char_is_bold [mk_char "a" 10 10 (Some "Arial")]%Q = false
  /\ singlecol_page [mk_char "a" 10 10 (Some "Arial")]%Q = [].
Proof.
  split; [reflexivity|].
  apply (proj2 (proj2 singlecol_records_bounded _)). reflexivity.
Defined.

(* ================================================================== *)
(** * Paragraph segmenter: where the breaks fall *)
(* ================================================================== *)

Lemma combine_mids_snd (lines : list yline) :
  map snd (combine lines (mids_of lines)) = mids_of lines.
Proof.
  unfold mids_of. induction lines as [|l lines IH]; simpl; [reflexivity|].
  now rewrite IH.
Qed.

(** A turn of the loop once a line has been read. *)
Lemma para_step_open thresh paras cur b0 b1 prev txt y0 y1 mid :
  cur <> [] ->
  para_step thresh (paras, cur, b0, b1, Some prev) (txt, y0, y1, mid)
  = if Qltb thresh (mid - prev)
    then (paras ++ [(cur, if_not_none b0 y0, if_not_none b1 y1)],
          [txt], Some y0, Some y1, Some mid)
    else (paras, cur ++ [txt], b0, Some y1, Some mid).
Proof.
  intros Hne. apply nonempty_true in Hne. unfold para_step.
  rewrite Hne, andb_true_r.
  destruct (Qltb thresh (mid - prev)); cbn [nonempty app]; [reflexivity|].
  now rewrite Hne.
Qed.

(** The first turn of the loop. *)
Lemma para_step_first thresh txt y0 y1 mid :
  para_step thresh ([], [], None, None, None) (txt, y0, y1, mid)
  = ([], [txt], Some y0, Some y1, Some mid).
Proof. reflexivity. Qed.

(** Once a line has been read, each further line closes the open paragraph
    exactly when its gap to the line before exceeds the threshold. *)
Lemma para_loop_breaks thresh items : forall paras cur b0 b1 prev,
  cur <> [] ->
  let st' := fold_left (para_step thresh) items (paras, cur, b0, b1, Some prev) in
  List.length (st_paras st')
  = List.length paras
    + List.length (gaps_above thresh (diffs_of (prev :: map snd items)))
  /\ st_cur st' <> [].
Proof.
  induction items as [|[[[txt y0] y1] mid] items IH]; intros paras cur b0 b1 prev Hne.
  - cbn. split; [lia|exact Hne].
  - cbv zeta. cbn [fold_left map snd]. rewrite (para_step_open _ _ _ _ _ _ _ _ _ _ Hne).
    change (diffs_of (prev :: mid :: map snd items))
      with ((mid - prev)%Q :: diffs_of (mid :: map snd items)).
    unfold gaps_above at 1. cbn [filter].
    destruct (Qltb thresh (mid - prev)) eqn:E.
    + destruct (IH (paras ++ [(cur, if_not_none b0 y0, if_not_none b1 y1)])
                  [txt] (Some y0) (Some y1) mid) as (H1 & H2);
        [discriminate|].
      split; [|exact H2]. rewrite H1, length_app. unfold gaps_above.
      cbn [List.length]. lia.
    + destruct (IH paras (cur ++ [txt]) b0 (Some y1) mid) as (H1 & H2);
        [now destruct cur|].
      split; [|exact H2]. rewrite H1. reflexivity.
Qed.

Lemma segment_at_count thresh lines :
  lines <> [] ->
  List.length (segment_at thresh lines)
  = 1 + List.length (gaps_above thresh (diffs_of (mids_of lines))).
Proof.
  destruct lines as [|[[t0 y0] y1] lines]; [congruence|]. intros _.
  unfold segment_at.
  change (combine ((t0, y0, y1) :: lines) (mids_of ((t0, y0, y1) :: lines)))
    with (((t0, y0, y1), ((y0 + y1) / 2)%Q) :: combine lines (mids_of lines)).
  cbn [fold_left]. rewrite para_step_first.
  pose proof (para_loop_breaks thresh (combine lines (mids_of lines))
                [] [t0] (Some y0) (Some y1) ((y0 + y1) / 2)%Q) as H.
  cbv zeta in H. rewrite combine_mids_snd in H.
  destruct (fold_left (para_step thresh) (combine lines (mids_of lines))
              ([], [t0], Some y0, Some y1, Some ((y0 + y1) / 2)%Q))
    as [[[[paras cur] b0] b1] pm].
  cbn [st_paras st_cur] in H. destruct H as (H1 & H2); [discriminate|].
  apply nonempty_true in H2. rewrite H2, length_app, H1. simpl. lia.
Qed.



(** In a sorted sequence nothing up to an index exceeds the element at that
    index. *)
Lemma sorted_prefix_below (s : list Q) : forall k,
  StronglySorted Qle s -> k < List.length s ->
  Forall (fun x => (x <= nth k s 0)%Q) (firstn (S k) s).
Proof.
  induction s as [|a s IH]; intros k Hs Hk; [simpl in Hk; lia|].
  apply StronglySorted_inv in Hs as (Hs & Ha). rewrite Forall_forall in Ha.
  destruct k as [|k].
  - cbn. constructor; [apply Qle_refl|constructor].
  - cbn [List.length] in Hk. cbn [firstn nth]. constructor.
    + apply Ha, nth_In. lia.
    + apply IH; [exact Hs|lia].
Qed.

Lemma gaps_above_perm thresh l l' :
  Permutation l l' ->
  List.length (gaps_above thresh l) = List.length (gaps_above thresh l').
Proof.
  intros H. unfold gaps_above.
  induction H as [|x l l' _ IH|x y l|l l' l'' _ IH1 _ IH2]; cbn [filter].
  - reflexivity.
  - destruct (Qltb thresh x); cbn [List.length]; now rewrite IH.
  - destruct (Qltb thresh x), (Qltb thresh y); reflexivity.
  - now rewrite IH1.
Qed.

(** At most the gaps after the median in ascending order exceed a
    threshold that is not below the median. *)
Lemma gaps_above_median gaps thresh :
  gaps <> [] -> (median_gap_of gaps <= thresh)%Q ->
  List.length (gaps_above thresh gaps)
  <= List.length gaps - List.length gaps / 2 - 1.
Proof.
  intros Hne Hth. destruct (sorted_gaps_ascending gaps) as (Hp & Hs).
  rewrite (gaps_above_perm _ _ _ Hp).
  set (s := sorted_by Qltb gaps) in *. set (k := List.length gaps / 2).
  assert (Hlen : List.length s = List.length gaps) by apply sorted_by_length.
  assert (Hk : k < List.length s).
  { rewrite Hlen. subst k. destruct gaps; [congruence|].
    apply Nat.div_lt; simpl; lia. }
  assert (Hss : StronglySorted Qle s).
  { apply Sorted_StronglySorted; [|exact Hs].
    intros a b c. apply Qle_trans. }
  pose proof (sorted_prefix_below s k Hss Hk) as Hpre.
  rewrite <- (firstn_skipn (S k) s). unfold gaps_above.
  rewrite filter_app, length_app.
  assert (H0 : filter (Qltb thresh) (firstn (S k) s) = []).
  { clear -Hpre Hth. unfold median_gap_of in Hth. fold s k in Hth.
    induction Hpre as [|x l Hx _ IH]; [reflexivity|]. cbn [filter].
    assert (E : Qltb thresh x = false).
    { apply Qltb_false_le. now apply Qle_trans with (nth k s 0%Q). }
    now rewrite E. }
  rewrite H0. cbn [List.length].
  apply Nat.le_trans with (List.length (skipn (S k) s)); [apply filter_length_le|].
  rewrite length_skipn, Hlen. lia.
Qed.

Lemma median_gap_in gaps : gaps <> [] -> In (median_gap_of gaps) gaps.
Proof.
  intros Hne. apply (Permutation_in _ (Permutation_sym (sorted_by_perm Qltb gaps))).
  unfold median_gap_of. apply nth_In. rewrite sorted_by_length.
  destruct gaps; [congruence|]. apply Nat.div_lt; simpl; lia.
Qed.

Lemma half_bound_on_segments :
  forall (lines : list yline) (para_factor : Q),
    2 <= List.length lines ->
    (1 <= para_factor)%Q ->
    Forall (fun gap => (0 <= gap)%Q) (diffs_of (mids_of lines)) ->
    2 * List.length (collect_paragraphs_with_y lines para_factor)
    <= List.length lines.
Proof.
  intros lines f Hlen Hf Hpos.
  assert (Hn : List.length (diffs_of (mids_of lines)) = List.length lines - 1).
  { rewrite diffs_of_length. unfold mids_of. now rewrite length_map. }
  assert (Hne : diffs_of (mids_of lines) <> []).
  { intros E. rewrite E in Hn. simpl in Hn. lia. }
  rewrite (collect_paragraphs_threshold lines f Hne).
  rewrite segment_at_count by (destruct lines; [simpl in Hlen; lia|discriminate]).
  assert (Hm : (0 <= median_gap_of (diffs_of (mids_of lines)))%Q).
  { rewrite Forall_forall in Hpos. apply Hpos. now apply median_gap_in. }
  assert (Hth : (median_gap_of (diffs_of (mids_of lines))
                 <= median_gap_of (diffs_of (mids_of lines)) * f)%Q).
  { rewrite <- (Qmult_1_r (median_gap_of (diffs_of (mids_of lines)))) at 1.
    rewrite !(Qmult_comm (median_gap_of (diffs_of (mids_of lines)))).
    now apply Qmult_le_compat_r. }
  pose proof (gaps_above_median _ _ Hne Hth) as Hb.
  rewrite Hn in Hb.
  pose proof (Nat.div_mod_eq (List.length lines - 1) 2) as Hdiv.
  pose proof (Nat.mod_upper_bound (List.length lines - 1) 2 ltac:(lia)) as Hmod.
  lia.
Qed.

(** X13. When the lines come top to bottom and the paragraph factor is at
    least 1, two or more lines give at most half as many paragraphs as there
    are lines: the threshold is not below the upper median of the gaps, so
    fewer than half of the gaps can exceed it.  Two lines, or three, are
    always one paragraph. *)
Theorem paragraphs_at_most_half :
  forall (lines : list yline) (para_factor : Q),
    2 <= List.length lines ->
    (1 <= para_factor)%Q ->
    Forall (fun gap => (0 <= gap)%Q) (diffs_of (mids_of lines)) ->
    2 * List.length (collect_paragraphs_with_y lines para_factor)
    <= List.length lines.
Proof. exact half_bound_on_segments. Qed.

Lemma paragraphs_at_most_half_witness :
  let lines : list yline := [("a", 0, 0); ("b", 1, 1); ("c", 40, 40)]%Q in
  2 <= List.length lines /\ (1 <= 3 # 2)%Q
  /\ Forall (fun gap => (0 <= gap)%Q) (diffs_of (mids_of lines))
  /\ 2 * List.length (collect_paragraphs_with_y lines (3 # 2)) <= 3.
Proof.
  intros lines.
  assert (H1 : 2 <= List.length lines) by (simpl; lia).
  assert (H2 : (1 <= 3 # 2)%Q) by (unfold Qle; simpl; lia).
  assert (H3 : Forall (fun gap => (0 <= gap)%Q) (diffs_of (mids_of lines))).
  { repeat constructor; unfold Qle; simpl; lia. }
  split; [exact H1|]. split; [exact H2|]. split; [exact H3|].
  exact (paragraphs_at_most_half lines (3 # 2) H1 H2 H3).
Defined.

(** Lines that come top to bottom have gaps that are not negative. *)
Lemma spaced_lines_gaps y_tol (lines : list yline) :
  (0 <= y_tol)%Q ->
  Forall (fun s => (fst s <= snd s)%Q) (map yline_span lines) ->
  Sorted (spaced y_tol) (map yline_span lines) ->
  Forall (fun gap => (0 <= gap)%Q) (diffs_of (mids_of lines)).
Proof.
  intros Htol. induction lines as [|[[t1 a1] b1] lines IH]; [constructor|].
  intros Hord Hsp. destruct lines as [|[[t2 a2] b2] lines]; [constructor|].
  cbn [map yline_span] in *.
  apply Forall_inv_tail in Hord as Hord'. apply Forall_inv in Hord as H1.
  apply Forall_inv in Hord' as H2.
  apply Sorted_inv in Hsp as (Hsp' & Hhd). apply HdRel_inv in Hhd.
  unfold spaced in Hhd. cbn [fst snd] in *.
  change (diffs_of (mids_of ((t1, a1, b1) :: (t2, a2, b2) :: lines)))
    with (((a2 + b2) / 2 - (a1 + b1) / 2)%Q
          :: diffs_of (mids_of ((t2, a2, b2) :: lines))).
  constructor; [|now apply IH].
  assert (E : ((a2 + b2) / 2 - (a1 + b1) / 2
               == ((a2 + b2) - (a1 + b1)) * (1 # 2))%Q) by field.
  rewrite E. lra.
Qed.

(** X14. In a column of two or more lines the two-column assembler finds at
    most half as many paragraphs as lines, and so at most half as many
    records: two lines, or three, are always one paragraph. *)
Theorem column_halving :
  forall (col_words : list word) (headers : list (Q * string)),
    let lines := group_words_to_lines_with_y col_words 3 in
    2 <= List.length lines ->
    2 * List.length (column_paras col_words) <= List.length lines
    /\ 2 * List.length (column_records headers (column_paras col_words))
       <= List.length lines.
Proof.
  intros col_words headers lines Hlen.
  assert (Hp : 2 * List.length (column_paras col_words) <= List.length lines).
  { unfold column_paras. fold lines.
    apply half_bound_on_segments; [exact Hlen|unfold Qle; simpl; lia|].
    destruct (clusterers_descend 3) as (_ & Hw).
    destruct (Hw col_words) as (Hord & Hsp). fold lines in Hord, Hsp.
    apply (spaced_lines_gaps 3); [unfold Qle; simpl; lia|exact Hord|exact Hsp]. }
  split; [exact Hp|].
  rewrite column_records_filter by apply column_paras_nonempty.
  rewrite length_map.
  pose proof (filter_length_le (fun p => negb (suppressed p))
                (column_paras col_words)).
  lia.
Qed.

Lemma column_halving_witness :
  2 <= List.length (group_words_to_lines_with_y page_m_smith 3)
  /\ 2 * List.length (column_paras page_m_smith) <= 2.
Proof.
  assert (H : 2 <= List.length (group_words_to_lines_with_y page_m_smith 3))
    by (simpl; lia).
  split; [exact H|].
  exact (proj1 (column_halving page_m_smith [] H)).
Defined.

(* ================================================================== *)
(** * Paragraph segmenter: the bounds of a paragraph *)
(* ================================================================== *)

Lemma map_text_nonempty (g : list yline) :
  nonempty (map yline_text g) = nonempty g.
Proof. now destruct g. Qed.

Lemma hd_app_nonempty {A} (d : A) l x : l <> [] -> hd d (l ++ [x]) = hd d l.
Proof. destruct l; [congruence|reflexivity]. Qed.

(** A turn of the loop keeps the paragraphs in step with the runs of
    lines. *)
Lemma para_step_groups thresh st groups curg (l : yline) mid :
  groups_rel st groups curg ->
  exists groups' curg',
    groups_rel (para_step thresh st (l, mid)) groups' curg'
    /\ curg' <> []
    /\ List.concat groups' ++ curg' = (List.concat groups ++ curg) ++ [l].
Proof.
  destruct st as [[[[paras cur] b0] b1] pm]. destruct l as [[txt y0] y1].
  intros (Hp & Hg & Hc & Hb). subst paras cur. unfold para_step.
  rewrite map_text_nonempty.
  destruct (match pm with Some p => Qltb thresh (mid - p) | None => false end
            && nonempty curg) eqn:E.
  - apply andb_true_iff in E as (_ & Hne). apply nonempty_true in Hne.
    destruct (Hb Hne) as (-> & ->).
    exists (groups ++ [curg]), [(txt, y0, y1)]. cbn [nonempty if_not_none].
    split; [|split; [discriminate|]].
    + split; [now rewrite map_app|]. split.
      * apply Forall_app. split; [exact Hg|now constructor].
      * split; [reflexivity|]. intros _. now split.
    + now rewrite concat_app; cbn; rewrite app_nil_r.
  - exists groups, (curg ++ [(txt, y0, y1)]).
    split; [|split; [now destruct curg|now rewrite app_assoc]].
    split; [reflexivity|]. split; [exact Hg|].
    split; [now rewrite map_app|]. intros _. rewrite last_last. cbn [yline_span snd].
    destruct curg as [|l' curg'].
    + now split.
    + cbn [nonempty]. destruct (Hb ltac:(discriminate)) as (-> & _). now split.
Qed.

Lemma para_loop_groups thresh items : forall st groups curg,
  groups_rel st groups curg ->
  exists groups' curg',
    groups_rel (fold_left (para_step thresh) items st) groups' curg'
    /\ List.concat groups' ++ curg' = (List.concat groups ++ curg) ++ map fst items.
Proof.
  induction items as [|[l mid] items IH]; intros st groups curg Hrel.
  - exists groups, curg. split; [exact Hrel|now rewrite app_nil_r].
  - destruct (para_step_groups thresh st groups curg l mid Hrel)
      as (g1 & c1 & Hrel1 & _ & E1).
    destruct (IH _ _ _ Hrel1) as (g2 & c2 & Hrel2 & E2).
    exists g2, c2. cbn [fold_left]. split; [exact Hrel2|].
    rewrite E2, E1, <- app_assoc. reflexivity.
Qed.

Lemma combine_mids_fst (lines : list yline) :
  map fst (combine lines (mids_of lines)) = lines.
Proof.
  unfold mids_of. induction lines as [|l lines IH]; simpl; [reflexivity|].
  now rewrite IH.
Qed.

Lemma segment_at_groups thresh lines :
  exists groups : list (list yline),
    List.concat groups = lines
    /\ Forall (fun g => g <> []) groups
    /\ segment_at thresh lines = map para_of_group groups.
Proof.
  unfold segment_at.
  destruct (para_loop_groups thresh (combine lines (mids_of lines))
              ([], [], None, None, None) [] []) as (g & c & Hrel & E).
  { repeat split; [constructor|congruence|congruence]. }
  rewrite combine_mids_fst in E. cbn [List.concat app] in E.
  destruct (fold_left (para_step thresh) (combine lines (mids_of lines))
              ([], [], None, None, None)) as [[[[paras cur] b0] b1] pm].
  destruct Hrel as (-> & Hg & -> & Hb). rewrite map_text_nonempty.
  destruct (nonempty c) eqn:Hc.
  - apply nonempty_true in Hc. destruct (Hb Hc) as (-> & ->).
    exists (g ++ [c]). split; [|split].
    + rewrite concat_app. cbn. now rewrite app_nil_r.
    + apply Forall_app. split; [exact Hg|now constructor].
    + now rewrite map_app.
  - apply nonempty_false in Hc. subst c. rewrite app_nil_r in E.
    exists g. repeat split; assumption.
Qed.

(** X15. The paragraphs are the lines cut into consecutive runs, none of
    them empty: a paragraph holds the texts of its run, its [y0] is the [y0]
    of the first line of the run and its [y1] the [y1] of the last. *)
Theorem paragraph_bounds :
  forall (lines : list yline) (para_factor : Q),
  exists groups : list (list yline),
    List.concat groups = lines
    /\ Forall (fun g => g <> []) groups
    /\ collect_paragraphs_with_y lines para_factor
       = map (fun g =>
                (map yline_text g,
                 fst (yline_span (hd ("", 0, 0)%Q g)),
                 snd (yline_span (last g ("", 0, 0)%Q)))) groups.
Proof.
  intros lines f. unfold collect_paragraphs_with_y.
  destruct lines as [|l0 lines]; [exists []; repeat split; constructor|].
  destruct (nonempty (diffs_of (mids_of (l0 :: lines)))) eqn:Hd; cbn [negb].
  - apply segment_at_groups.
  - apply diffs_of_nil_inv in Hd. subst lines. exists [[l0]].
    split; [reflexivity|]. split; [repeat constructor; discriminate|].
    now destruct l0 as [[t0 y0] y1].
Qed.

(* ================================================================== *)
(** * Honorific parser: nothing but white space is lost *)
(* ================================================================== *)

Lemma rstrip_empty_all_space s :
  PyStr.rstrip s = "" -> PyStr.all_chars PyStr.isspace s = true.
Proof.
  induction s as [|c s IH]; [reflexivity|]. cbn [PyStr.rstrip PyStr.all_chars].
  destruct (PyStr.rstrip s); [|discriminate].
  destruct (PyStr.isspace c); [|discriminate]. intros _. now rewrite IH.
Qed.

(** [s.rstrip()] is [s] without a tail of white space. *)
Lemma rstrip_prefix s :
  exists tail, s = (PyStr.rstrip s ++ tail)%string
               /\ PyStr.all_chars PyStr.isspace tail = true.
Proof.
  induction s as [|c s (tail & E & Htail)]; [now exists ""|].
  cbn [PyStr.rstrip]. destruct (PyStr.rstrip s) as [|c' r'] eqn:Er.
  - destruct (PyStr.isspace c) eqn:Hc.
    + exists (String c s). split; [reflexivity|]. cbn [PyStr.all_chars].
      now rewrite Hc, (rstrip_empty_all_space s Er).
    + exists s. split; [reflexivity|now apply rstrip_empty_all_space].
  - exists tail. split; [|exact Htail]. cbn [append] in *. now rewrite <- E.
Qed.

Lemma title_fragments_unspaced :
  forallb starts_unspaced title_fragments = true.
Proof. reflexivity. Qed.

(** The text matched by a fragment starts with a character that is not
    white space. *)
Lemma fragment_match_unspaced frag w :
  In frag title_fragments -> matches frag w ->
  exists c w', w = String c w' /\ PyStr.isspace c = false.
Proof.
  intros Hin M. pose proof title_fragments_unspaced as Hu.
  rewrite forallb_forall in Hu. specialize (Hu _ Hin).
  unfold starts_unspaced in Hu.
  destruct (leading_lit frag) as [[|c l]|] eqn:Hl; try discriminate.
  destruct (matches_leading _ _ _ M Hl) as (w' & ->).
  exists c, (l ++ w')%string. split; [reflexivity|].
  now apply negb_true_iff in Hu.
Qed.

Lemma strip_unspaced c w :
  PyStr.isspace c = false ->
  PyStr.strip (String c w) = PyStr.rstrip (String c w)
  /\ PyStr.strip (String c w) <> "".
Proof.
  intros Hc. unfold PyStr.strip. cbn [PyStr.lstrip]. rewrite Hc.
  split; [reflexivity|]. cbn [PyStr.rstrip].
  destruct (PyStr.rstrip w); [now rewrite Hc|discriminate].
Qed.

(** X16. The honorific parser loses nothing of a line but white space: the
    trimmed line is the honorific, a run of white space, and a rest of which
    the person is the trimmed form; honorific and person are trimmed; and the
    honorific is empty exactly when the trimmed line starts with no fragment
    of the list, the person being then the whole trimmed line. *)
Theorem honorific_split_lossless :
  forall line : string,
    let h := fst (split_honorific_and_person line) in
    let p := snd (split_honorific_and_person line) in
    (exists gap rest,
        PyStr.strip line = (h ++ gap ++ rest)%string
        /\ PyStr.all_chars PyStr.isspace gap = true
        /\ p = PyStr.strip rest)
    /\ PyStr.strip h = h /\ PyStr.strip p = p
    /\ (h = "" <-> ~ has_honorific_prefix (PyStr.strip line))
    /\ (h = "" -> p = PyStr.strip line).
Proof.
  intros line h p. subst h p. unfold split_honorific_and_person.
  destruct (match_ title_match_pattern (PyStr.strip line)) as [n|] eqn:Hm.
  - destruct (match_title_sound _ _ Hm) as (frag & w & rest & Hin & M & Hs & ->).
    rewrite Hs, substring_app, drop_app. cbn [fst snd].
    destruct (fragment_match_unspaced _ _ Hin M) as (c & w' & -> & Hc).
    destruct (strip_unspaced c w' Hc) as (Es & Hne).
    destruct (rstrip_prefix (String c w')) as (tail & Et & Htail).
    split; [|split; [apply strip_idem|split; [apply strip_idem|split]]].
    + exists tail, rest. split; [|split; [exact Htail|reflexivity]].
      rewrite Es. rewrite Et at 1. now rewrite str_app_assoc.
    + split; [intros E; now elim Hne|]. intros Hno. exfalso. apply Hno.
      now exists frag, (String c w'), rest.
    + intros E. now elim Hne.
  - cbn [fst snd]. split; [|split; [reflexivity|split; [apply strip_idem|split]]].
    + exists "", (PyStr.strip line). split; [reflexivity|].
      split; [reflexivity|]. symmetry. apply strip_idem.
    + split; [intros _; now apply match_title_none_iff|reflexivity].
    + reflexivity.
Qed.

(* ================================================================== *)
(** * Honorific parser: the first fragment of the list wins *)
(* ================================================================== *)

Lemma run_alts_first {A} (rs : list re) s (k : string -> option A) x :
  rs <> [] -> run (alts rs) s k = Some x ->
  exists i r,
    nth_error rs i = Some r /\ run r s k = Some x
    /\ forall j rj, j < i -> nth_error rs j = Some rj -> run rj s k = None.
Proof.
  induction rs as [|r rs IH]; [congruence|]. intros _.
  destruct rs as [|r' rs].
  - cbn [alts]. intros H. exists 0, r. split; [reflexivity|].
    split; [exact H|]. intros j rj Hj. lia.
  - change (alts (r :: r' :: rs)) with (Alt r (alts (r' :: rs))).
    cbn [run]. destruct (run r s k) as [y|] eqn:Hr.
    + intros [= ->]. exists 0, r. split; [reflexivity|].
      split; [exact Hr|]. intros j rj Hj. lia.
    + intros H. destruct (IH ltac:(discriminate) H) as (i & ri & Hn & Hrun & Hearlier).
      exists (S i), ri. split; [exact Hn|]. split; [exact Hrun|].
      intros [|j] rj Hj Hnth.
      * cbn in Hnth. injection Hnth as <-. exact Hr.
      * apply (Hearlier j rj); [lia|exact Hnth].
Qed.

(** X17. The honorific is taken from the first fragment, in the order of
    the list, that matches a start of the trimmed line: no fragment before it
    in the list matches any start of the line. *)
Theorem first_fragment_wins :
  forall line : string,
    has_honorific_prefix (PyStr.strip line) ->
    exists i frag w rest,
      nth_error title_fragments i = Some frag
      /\ matches frag w
      /\ PyStr.strip line = (w ++ rest)%string
      /\ split_honorific_and_person line = (PyStr.strip w, PyStr.strip rest)
      /\ forall j fj w' rest',
           j < i -> nth_error title_fragments j = Some fj ->
           matches fj w' -> PyStr.strip line <> (w' ++ rest')%string.
Proof.
  intros line Hp. unfold split_honorific_and_person.
  destruct (match_ title_match_pattern (PyStr.strip line)) as [n|] eqn:Hm;
    [|now apply match_title_none_iff in Hm].
  unfold match_, title_match_pattern in Hm.
  destruct (run_alts_first title_fragments _ _ _ ltac:(discriminate) Hm)
    as (i & frag & Hn & Hrun & Hearlier).
  destruct (run_sound _ _ _ _ Hrun) as (w & rest & Hs & M & Hk).
  exists i, frag, w, rest. split; [exact Hn|]. split; [exact M|].
  split; [exact Hs|]. split.
  - injection Hk as <-. rewrite Hs at 1 2. rewrite Hs, str_length_app.
    replace (String.length w + String.length rest - String.length rest)
      with (String.length w) by lia.
    now rewrite substring_app, drop_app.
  - intros j fj w' rest' Hj Hnth M' E.
    specialize (Hearlier j fj Hj Hnth). revert Hearlier. rewrite E.
    apply run_complete; [exact M'|discriminate].
Qed.

Lemma first_fragment_wins_witness :
  has_honorific_prefix (PyStr.strip "Mr John Smith")
  /\ exists i frag,
       nth_error title_fragments i = Some frag
       /\ split_honorific_and_person "Mr John Smith" = ("Mr", "John Smith").
Proof.
  assert (H : has_honorific_prefix (PyStr.strip "Mr John Smith")).
  { exists (Lit "Mr "), "Mr ", "John Smith".
    split; [unfold title_fragments; simpl; tauto|].
    split; [constructor|reflexivity]. }
  split; [exact H|].
  destruct (first_fragment_wins "Mr John Smith" H)
    as (i & frag & w & rest & Hn & _ & _ & _ & _).
  exists i, frag. split; [exact Hn|reflexivity].
Defined.

(* ================================================================== *)
(** * single_column_bold_extract.py against extract_pdf_data.py *)
(* ================================================================== *)

Lemma bold_script_lines chars y_tol :
  chars <> [] ->
  SingleColumnBold.group_chars_to_lines chars y_tol
  = Returns (group_chars_to_lines chars y_tol).
Proof.
  intros Hne. unfold SingleColumnBold.group_chars_to_lines, group_chars_to_lines.
  destruct chars as [|c chars]; [congruence|].
  destruct (sorted_by char_key_lt (c :: chars)) as [|c0 rest] eqn:E.
  - apply sorted_by_nil_inv in E. discriminate.
  - destruct (fold_left (chars_step y_tol) rest ([], [c0], c_top c0, c_top c0))
      as [[[lines cur] y0] y1]. reflexivity.
Qed.

Lemma bold_walk_bold d text y0 y1 rest :
  text <> "" ->
  SingleColumnBold.walk d ((text, y0, y1, true) :: rest)
  = SingleColumnBold.walk
      (Some (PyStr.strip (PyStr.split1_head "/" text))) rest.
Proof.
  intros Ht. apply truthy_true in Ht.
  cbn [SingleColumnBold.walk andb]. now rewrite Ht.
Qed.

Lemma bold_walk_skip d text y0 y1 b rest :
  text = "" \/ (b = false /\ opt_truthy d = false) ->
  SingleColumnBold.walk d ((text, y0, y1, b) :: rest)
  = SingleColumnBold.walk d rest.
Proof.
  intros [->|[-> Hd]]; cbn [SingleColumnBold.walk].
  - cbn [PyStr.truthy]. now rewrite !andb_false_r.
  - now rewrite Hd.
Qed.

(** The name line of this script: the walk goes on where the walk of
    [extract_pdf_data.py] does. *)
Lemma bold_walk_person d text y0 y1 rest :
  opt_truthy d = true -> text <> "" ->
  exists affiliation,
    SingleColumnBold.walk d ((text, y0, y1, false) :: rest)
    = SingleColumnBold.mk_row (or_empty d) text affiliation
      :: SingleColumnBold.walk d (snd (affiliation_span rest)).
Proof.
  intros Hd Ht. apply truthy_true in Ht.
  cbn [SingleColumnBold.walk andb]. rewrite Hd, Ht. cbn [andb].
  match goal with
  | |- exists a, ?collect [] rest = _ =>
      enough (H : forall acc, exists a,
                 collect acc rest
                 = SingleColumnBold.mk_row (or_empty d) text a
                   :: SingleColumnBold.walk d (snd (affiliation_span rest)))
        by apply (H [])
  end.
  induction rest as [|[[[t z0] z1] b] rest IH]; intros acc.
  - eexists. reflexivity.
  - cbn [affiliation_span].
    destruct (negb b && PyStr.truthy (PyStr.strip t)) eqn:E.
    + destruct (IH (acc ++ [t])) as (a & Ha). exists a. rewrite Ha.
      now destruct (affiliation_span rest).
    + eexists. reflexivity.
Qed.

Lemma bold_walk_matches n : forall d lines,
  List.length lines <= n ->
  Forall2 row_matches (SingleColumnBold.walk d lines) (singlecol_walk d lines).
Proof.
  induction n as [|n IH]; intros d lines Hlen.
  - destruct lines; [constructor|simpl in Hlen; lia].
  - destruct lines as [|[[[text y0] y1] b] rest]; [constructor|].
    cbn [List.length] in Hlen. unfold bline in *.
    destruct (singlecol_walk_cases d text y0 y1 b rest)
      as [(-> & Ht & E)|[(-> & Ht & Hd & E)|(Hskip & E)]]; rewrite E.
    + rewrite bold_walk_bold by exact Ht. apply IH. lia.
    + destruct (bold_walk_person d text y0 y1 rest Hd Ht) as (a & ->).
      constructor.
      * split; [reflexivity|]. cbn [SingleColumnBold.r_Person_Name Honorific Person_Name].
        now destruct (split_honorific_and_person text).
      * apply IH. destruct (affiliation_span_split rest) as (pre & Erest & _ & _).
        unfold bline in *. rewrite Erest in Hlen at 1.
        rewrite length_app in Hlen. lia.
    + rewrite (bold_walk_skip d text y0 y1 b rest Hskip). apply IH. lia.
Qed.

Lemma bold_script_pages pdf : forall records recs0,
  Forall (fun chars : list pchar => chars <> []) pdf ->
  Forall2 row_matches records recs0 ->
  exists rows,
    SingleColumnBold.extract_pages records pdf = Returns rows
    /\ Forall2 row_matches rows (recs0 ++ flat_map singlecol_page pdf).
Proof.
  induction pdf as [|chars pdf IH]; intros records recs0 Hne Hrel.
  - exists records. split; [reflexivity|]. cbn. now rewrite app_nil_r.
  - apply Forall_cons_iff in Hne as (Hc & Hne).
    cbn [SingleColumnBold.extract_pages flat_map].
    rewrite (bold_script_lines chars 3 Hc).
    destruct (IH (records ++ SingleColumnBold.walk None (group_chars_to_lines chars 3))
                 (recs0 ++ singlecol_page chars) Hne) as (rows & E & H).
    + apply Forall2_app; [exact Hrel|].
      apply (bold_walk_matches (List.length (group_chars_to_lines chars 3))).
      apply le_n.
    + exists rows. split; [exact E|]. now rewrite app_assoc.
Qed.

(** X18. On a document without an empty page the older single-column script
    returns, and its rows are the records of [extract_singlecol_textpdf] one
    for one, in order: the same delegation, and as person the whole name line
    that the record splits into honorific and person. *)
Theorem bold_script_agrees :
  forall pdf : list (list pchar),
    Forall (fun chars => chars <> []) pdf ->
    exists rows,
      SingleColumnBold.extract_delegation_records pdf = Returns rows
      /\ Forall2 row_matches rows (extract_singlecol_textpdf pdf).
Proof.
  intros pdf Hne.
  exact (bold_script_pages pdf [] [] Hne (Forall2_nil _)).
Qed.

Lemma bold_script_agrees_witness :
  let page := [ mk_char "A" 10 10 (Some "Arial-Bold");
                mk_char "b" 10 20 (Some "Arial") ]%Q in
  Forall (fun chars : list pchar => chars <> []) [page]
  /\ extract_singlecol_textpdf [page] = [mk_Record "A" "" "b" ""]
  /\ exists rows,
       SingleColumnBold.extract_delegation_records [page] = Returns rows
       /\ Forall2 row_matches rows (extract_singlecol_textpdf [page]).
Proof.
  intros page.
  assert (H : Forall (fun chars : list pchar => chars <> []) [page])
    by (repeat constructor; discriminate).
  split; [exact H|]. split; [reflexivity|].
  exact (bold_script_agrees [page] H).
Defined.

(* ================================================================== *)
(** * two_columns_file_extract.py against extract_pdf_data.py *)
(* ================================================================== *)

Section SortedAgain.

Context {A : Type} (lt : A -> A -> bool).

Lemma sorted_by_fixed l :
  Sorted (fun a b => lt b a = false) l -> sorted_by lt l = l.
Proof.
  induction 1 as [|x l Hs IH Hhd]; [reflexivity|].
  cbn [sorted_by]. rewrite IH. destruct Hhd as [|y l' Hy]; [reflexivity|].
  cbn [insert_by]. now rewrite Hy.
Qed.

(** Sorting what is sorted changes nothing. *)
Lemma sorted_by_idem l :
  (forall a b, lt a b = true -> lt b a = false) ->
  sorted_by lt (sorted_by lt l) = sorted_by lt l.
Proof. intros H. apply sorted_by_fixed. now apply sorted_by_sorted. Qed.

End SortedAgain.

Lemma word_key_lt_asym a b : word_key_lt a b = true -> word_key_lt b a = false.
Proof. apply top_x0_lt_asym. Qed.

(** The clusterer of this script on sorted words is the clusterer of
    [extract_pdf_data.py]. *)
Lemma file_group_words words y_tol :
  TwoColumnsFile.group_words_to_lines_with_y (sorted_by word_key_lt words) y_tol
  = group_words_to_lines_with_y words y_tol.
Proof.
  unfold TwoColumnsFile.group_words_to_lines_with_y, group_words_to_lines_with_y.
  destruct words as [|w words]; [reflexivity|].
  destruct (sorted_by word_key_lt (w :: words)); reflexivity.
Qed.

Lemma file_group_column words y_tol :
  TwoColumnsFile.group_words_to_lines_with_y (sorted_by word_key_lt words) y_tol
  = group_words_to_lines_with_y (sorted_by word_key_lt words) y_tol.
Proof.
  rewrite <- (file_group_words (sorted_by word_key_lt words)).
  now rewrite (sorted_by_idem word_key_lt words word_key_lt_asym).
Qed.

Lemma is_delegation_is_all_caps_header txt :
  TwoColumnsFile.is_delegation txt = is_all_caps_header txt.
Proof.
  unfold TwoColumnsFile.is_delegation, is_all_caps_header.
  destruct txt; reflexivity.
Qed.

Lemma file_is_header_block blk :
  TwoColumnsFile.is_header_block_ blk = is_header_block blk.
Proof.
  destruct blk as [|t [|? ?]]; try reflexivity.
  apply is_delegation_is_all_caps_header.
Qed.

Lemma file_collect_headers paras :
  TwoColumnsFile.collect_headers (map lift_para paras)
  = Returns (collect_headers paras).
Proof.
  induction paras as [|[[blk y0] y1] paras IH]; [reflexivity|].
  cbn [map lift_para TwoColumnsFile.collect_headers collect_headers].
  rewrite file_is_header_block, IH.
  now destruct (is_header_block blk).
Qed.

Lemma file_column_rows headers paras :
  Forall (fun p => para_lines p <> []) paras ->
  exists rows,
    TwoColumnsFile.column_rows title_match_pattern headers (map lift_para paras)
    = Returns rows
    /\ Forall2 file_row_matches rows (column_records headers paras).
Proof.
  induction 1 as [|[[blk y0] y1] paras Hne _ (rows & E & IH)].
  - exists []. split; [reflexivity|constructor].
  - cbn [map lift_para TwoColumnsFile.column_rows column_records].
    rewrite file_is_header_block, E.
    destruct (is_header_block blk); [now exists rows|].
    cbn in Hne. destruct blk as [|first others]; [congruence|].
    cbn [nonempty negb TwoColumnsFile.block_mid].
    destruct (match_ title_match_pattern (PyStr.strip first)) as [n|] eqn:Em;
      (eexists; split; [reflexivity|]; constructor; [|exact IH];
       rewrite record_of_block_fields; unfold file_row_matches; cbn [hd];
       unfold split_honorific_and_person; rewrite strip_idem, Em;
       cbn [TwoColumnsFile.f_Delegation TwoColumnsFile.f_Honorific
            TwoColumnsFile.f_Person_Name Delegation Honorific Person_Name
            fst snd];
       repeat split).
Qed.

Lemma file_page_rows words x0_thresh :
  exists rows,
    TwoColumnsFile.page_rows title_match_pattern words x0_thresh = Returns rows
    /\ Forall2 file_row_matches rows
         (_twocol_records_from_words words x0_thresh).
Proof.
  unfold TwoColumnsFile.page_rows.
  rewrite file_group_words, two_columns_file_segmenter, file_collect_headers.
  unfold left_words, right_words. rewrite !file_group_column.
  rewrite !two_columns_file_segmenter.
  fold (left_words words x0_thresh) (right_words words x0_thresh).
  fold (page_headers words).
  fold (column_paras (left_words words x0_thresh))
       (column_paras (right_words words x0_thresh)).
  destruct (file_column_rows (page_headers words)
              (column_paras (left_words words x0_thresh))
              (column_paras_nonempty _)) as (l & -> & Hl).
  destruct (file_column_rows (page_headers words)
              (column_paras (right_words words x0_thresh))
              (column_paras_nonempty _)) as (r & -> & Hr).
  exists (l ++ r). split; [reflexivity|].
  rewrite twocol_records_columns. now apply Forall2_app.
Qed.

Lemma file_pages pdf x0_thresh : forall records recs0,
  Forall2 file_row_matches records recs0 ->
  exists rows,
    TwoColumnsFile.extract_pages title_match_pattern records pdf x0_thresh
    = Returns rows
    /\ Forall2 file_row_matches rows
         (recs0 ++ extract_twocol_textpdf pdf x0_thresh).
Proof.
  induction pdf as [|words pdf IH]; intros records recs0 Hrel.
  - exists records. split; [reflexivity|]. cbn. now rewrite app_nil_r.
  - cbn [TwoColumnsFile.extract_pages].
    destruct (file_page_rows words x0_thresh) as (rows & -> & Hrows).
    assert (Hpage : (if negb (nonempty words) then []
                     else _twocol_records_from_words words x0_thresh)
                    = _twocol_records_from_words words x0_thresh)
      by (now destruct words).
    destruct (IH (records ++ rows)
                 (recs0 ++ _twocol_records_from_words words x0_thresh))
      as (all & E & H); [now apply Forall2_app|].
    exists all. split; [exact E|].
    unfold extract_twocol_textpdf in *. cbn [flat_map].
    now rewrite Hpage, app_assoc.
Qed.

(** X19. With the honorific pattern of [extract_pdf_data.py], the older
    two-column script never raises on a document whose pages can be read, and
    its rows are the records of [extract_twocol_textpdf] one for one, in
    order: the same honorific and person, and the same delegation, [None]
    where the record has the empty string. *)
Theorem two_columns_script_agrees :
  forall (pdf : list (list word)) (x0_thresh : Q),
  exists rows,
    TwoColumnsFile.extract_by_blank_lines title_match_pattern pdf x0_thresh
    = Returns rows
    /\ Forall2 file_row_matches rows (extract_twocol_textpdf pdf x0_thresh).
Proof.
  intros pdf thr. exact (file_pages pdf thr [] [] (Forall2_nil _)).
Qed.

(* ================================================================== *)
(** * The entry point: which assembler runs *)
(* ================================================================== *)

Lemma qualifying_split_dec words x0_thresh :
  {qualifying_split words x0_thresh} + {~ qualifying_split words x0_thresh}.
Proof.
  unfold qualifying_split.
  destruct (lt_dec 0 (List.length words));
    destruct (le_dec (List.length words) (4 * count_left words x0_thresh));
    destruct (le_dec (List.length words) (4 * count_right words x0_thresh));
    try (left; tauto); right; tauto.
Qed.

(** The detector on a document whose pages can all be read. *)
Lemma detect_two_iff pages x0_thresh :
  detect_layout_quick (Returns (map Returns pages)) x0_thresh = "two"
  <-> exists p, In p (firstn 2 pages) /\ qualifying_split p x0_thresh.
Proof.
  split.
  - intros H.
    destruct (Exists_dec (fun p => qualifying_split p x0_thresh) (firstn 2 pages))
      as [He|Hn]; [intros p; apply qualifying_split_dec| |].
    + apply Exists_exists in He. exact He.
    + rewrite detect_one in H; [discriminate|].
      intros p Hp Hq. apply Hn, Exists_exists. now exists p.
  - intros (p & Hp & Hq).
    destruct pages as [|p1 [|p2 rest]]; cbn [firstn] in Hp.
    + destruct Hp.
    + destruct Hp as [<-|[]].
      apply (detect_two [] p1 []); [simpl; lia|constructor|exact Hq].
    + destruct (qualifying_split_dec p1 x0_thresh) as [H1|H1].
      * apply (detect_two [] p1 (Returns p2 :: map Returns rest));
          [simpl; lia|constructor|exact H1].
      * destruct Hp as [<-|[<-|[]]]; [contradiction|].
        apply (detect_two [p1] p2 (map Returns rest)); [simpl; lia| |exact Hq].
        now constructor.
Qed.

(** X20. Without forced OCR and with the layout left to the detector,
    [extract_cites] runs the two-column assembler exactly when one of the
    first two pages has a qualifying split, and the single-column assembler
    otherwise; a layout given as "two" runs the two-column assembler, and any
    other given layout the single-column one, whatever the pages hold. *)
Theorem extract_cites_dispatch :
  forall (pdf : list page) (ocr_pages : list (list word)) (x0_thresh : Q),
    ((exists p, In p (firstn 2 pdf)
                /\ qualifying_split (p_words p) x0_thresh) ->
     extract_cites pdf ocr_pages "auto" x0_thresh false
     = extract_twocol_textpdf (map p_words pdf) x0_thresh)
    /\ ((forall p, In p (firstn 2 pdf) ->
                   ~ qualifying_split (p_words p) x0_thresh) ->
        extract_cites pdf ocr_pages "auto" x0_thresh false
        = extract_singlecol_textpdf (map p_chars pdf))
    /\ extract_cites pdf ocr_pages "two" x0_thresh false
       = extract_twocol_textpdf (map p_words pdf) x0_thresh
    /\ (forall layout,
          layout <> "auto" -> layout <> "two" ->
          extract_cites pdf ocr_pages layout x0_thresh false
          = extract_singlecol_textpdf (map p_chars pdf)).
Proof.
  intros pdf ocr thr.
  assert (Hmap : map (fun p => Returns (p_words p)) pdf
                 = map Returns (map p_words pdf)) by (now rewrite map_map).
  split; [|split; [|split]].
  - intros (p & Hp & Hq). unfold extract_cites. cbn [String.eqb Ascii.eqb Bool.eqb].
    rewrite Hmap.
    rewrite (proj2 (detect_two_iff (map p_words pdf) thr)); [reflexivity|].
    exists (p_words p). split; [|exact Hq]. rewrite firstn_map. now apply in_map.
  - intros Hn. unfold extract_cites. cbn [String.eqb Ascii.eqb Bool.eqb].
    rewrite Hmap. rewrite detect_one; [reflexivity|].
    intros w Hw. rewrite firstn_map in Hw.
    apply in_map_iff in Hw as (p & <- & Hp). now apply Hn.
  - reflexivity.
  - intros layout Ha Ht. unfold extract_cites.
    apply String.eqb_neq in Ha, Ht. now rewrite Ha, Ht.
Qed.

Lemma extract_cites_dispatch_witness :
  let pdf := [mk_page [] page_two_sides] in
  (exists p, In p (firstn 2 pdf) /\ qualifying_split (p_words p) 260)
  /\ extract_cites pdf [] "auto" 260 false
     = extract_twocol_textpdf [page_two_sides] 260.
Proof.
  intros pdf.
  assert (H : exists p, In p (firstn 2 pdf) /\ qualifying_split (p_words p) 260).
  { exists (mk_page [] page_two_sides). split; [now left|].
    unfold qualifying_split. simpl. lia. }
  split; [exact H|].
  exact (proj1 (extract_cites_dispatch pdf [] 260) H).
Defined.

Lemma twocol_record_provenance_witness :
  let r := mk_Record "" "M" "SMITH" "Dept." in
  In r (_twocol_records_from_words page_m_smith 260)
  /\ exists col p,
       In col (page_columns page_m_smith 260)
       /\ In p (column_paras col)
       /\ r = record_of_block (page_headers page_m_smith) p.
Proof.
  intros r.
  assert (H : In r (_twocol_records_from_words page_m_smith 260)) by (now left).
  split; [exact H|].
  destruct (twocol_record_provenance page_m_smith 260 r H)
    as (col & p & Hcol & Hp & _ & Hr & _).
  now exists col, p.
Defined.

Lemma singlecol_record_provenance_witness :
  let lines : list bline :=
    [("BAHAMAS / LES BAHAMAS", 10, 10, true); ("Mr. John Doe", 20, 20, false)]%Q in
  let r := mk_Record "BAHAMAS" "Mr." "John Doe" "" in
  In r (singlecol_walk None lines) /\ Delegation r <> "".
Proof.
  intros lines r.
  assert (H : In r (singlecol_walk None lines)) by (now left).
  split; [exact H|].
  exact (proj1 (singlecol_record_provenance lines r H)).
Defined.
